(** * InstantAI front-ends: session orchestration

    A shallow embedding of the chat front-ends of the repository:

    - [web_crawler/frontend]: [App.jsx] ([newChat], [updateChat], the
      chats addressed by index, the clicks and the responses in the order
      they come), [ChatWindow.jsx] ([appendThinking], [removeThinking],
      [send]) and [ChatMessage.jsx] (the table / plain classification of
      a message, [TableView], the lines of a plain text);
    - [root/frontend]: the [App] component with [handleSend] and
      [handleClarificationSelect] (crawl, then chat over the crawl state),
      [CrawlProgress], and the fragment of a [ChatWindow] over the
      session store.

    JavaScript values are modelled as they reach the code: JSON payloads
    with JavaScript's truthiness, property access that throws on [null],
    string conversion, [JSON.parse] and [JSON.stringify].  An [await] is
    a point where the environment supplies the outcome of the request. *)

From Stdlib Require Import String Ascii DecimalString.
From Stdlib Require Import List NArith ZArith Bool Lia.
Import ListNotations.

(** ** JavaScript strings and values *)

Module JS.

Local Open Scope N_scope.

(** A string is its sequence of UTF-16 code units. *)
Definition jsstring := list N.

Definition lit (s : string) : jsstring :=
  map N_of_ascii (list_ascii_of_string s).

Fixpoint str_eqb (a b : jsstring) : bool :=
  match a, b with
  | [], [] => true
  | x :: a', y :: b' => (x =? y) && str_eqb a' b'
  | _, _ => false
  end.

(** [String.prototype.trim] strips WhiteSpace and LineTerminator code units. *)
Definition is_white_space (c : N) : bool :=
  existsb (N.eqb c)
    [9; 10; 11; 12; 13; 32; 160; 5760; 8232; 8233; 8239; 8287; 12288; 65279]
  || ((8192 <=? c) && (c <=? 8202)).

Fixpoint trim_start (s : jsstring) : jsstring :=
  match s with
  | [] => []
  | c :: r => if is_white_space c then trim_start r else s
  end.

Definition trim (s : jsstring) : jsstring :=
  rev (trim_start (rev (trim_start s))).

(** [s.startsWith(c)] for a one-unit string [c]. *)
Definition startsWith (s : jsstring) (c : N) : bool :=
  match s with
  | x :: _ => x =? c
  | [] => false
  end.

(** [s.split(' ')]: the pieces between single spaces. *)
Fixpoint split_on (sep : N) (s : jsstring) (cur : jsstring) : list jsstring :=
  match s with
  | [] => [rev cur]
  | c :: r => if c =? sep then rev cur :: split_on sep r [] else split_on sep r (c :: cur)
  end.

Fixpoint join (sep : jsstring) (l : list jsstring) : jsstring :=
  match l with
  | [] => []
  | [x] => x
  | x :: r => x ++ sep ++ join sep r
  end.

(** A number is kept as the decimal a JSON literal denotes,
    [(-1)^neg * mant * 10^exp10].  Rounding to binary64 is not modelled,
    except where it decides truthiness: a literal is falsy when it rounds
    to zero, that is when its magnitude is at most [2^-1075]. *)
Record number := Number { num_neg : bool; num_mant : N; num_exp : Z }.

Definition number_truthy (n : number) : bool :=
  negb (num_mant n =? 0) &&
  ((0 <=? num_exp n)%Z
   || (10 ^ Z.to_N (- num_exp n) <? num_mant n * 2 ^ 1075)).

Definition of_N (n : N) : number := Number false n 0.

#[local] Set Warnings "-register-all".

Inductive value :=
| VUndef
| VNull
| VBool (b : bool)
| VNum (n : number)
| VStr (s : jsstring)
| VArr (items : list value)
| VObj (fields : list (jsstring * value)).

(** ToBoolean. *)
Definition truthy (v : value) : bool :=
  match v with
  | VUndef | VNull => false
  | VBool b => b
  | VNum n => number_truthy n
  | VStr s => match s with [] => false | _ => true end
  | VArr _ | VObj _ => true
  end.

(** [a || b] and [a && b] on values. *)
Definition or_else (a b : value) : value := if truthy a then a else b.
Definition and_then (a b : value) : value := if truthy a then b else a.

(** [v === 'literal']. *)
Definition strict_eq_str (v : value) (s : jsstring) : bool :=
  match v with
  | VStr t => str_eqb t s
  | _ => false
  end.

Fixpoint lookup (k : jsstring) (fields : list (jsstring * value)) : value :=
  match fields with
  | [] => VUndef
  | (k', v) :: r => if str_eqb k' k then v else lookup k r
  end.

(** [v.k] for the property names the front-ends read ([ok], [messages],
    [columns], [text], ...): none of them names a built-in property, so on
    an array, a string, a number or a boolean the result is [undefined].
    [None] is the TypeError of reading a property of [null] or [undefined]. *)
Definition get (v : value) (k : jsstring) : option value :=
  match v with
  | VUndef | VNull => None
  | VObj fields => Some (lookup k fields)
  | _ => Some VUndef
  end.

(** [null] and [undefined]. *)
Definition nullish (v : value) : bool :=
  match v with
  | VUndef | VNull => true
  | _ => false
  end.

(** [v.k] where [v] is known not to be [null]. *)
Definition field (v : value) (k : string) : value :=
  match get v (lit k) with
  | Some x => x
  | None => VUndef
  end.

(** Decimal digits of a natural number. *)
Definition digits_of_N (n : N) : jsstring :=
  lit (NilZero.string_of_uint (N.to_uint n)).

Fixpoint strip_zeros (rev_digits : jsstring) (dropped : Z) : jsstring * Z :=
  match rev_digits with
  | c :: r => if c =? 48 then strip_zeros r (dropped + 1)%Z else (rev_digits, dropped)
  | [] => ([], dropped)
  end.

Definition zeros (n : Z) : jsstring := repeat 48 (Z.to_nat n).

(** Number::toString, on the digits of the decimal. *)
Definition Number_toString (x : number) : jsstring :=
  if negb (number_truthy x) then lit "0"
  else
    let '(rd, dropped) := strip_zeros (rev (digits_of_N (num_mant x))) 0%Z in
    let ds := rev rd in
    let k := Z.of_nat (length ds) in
    let n := (k + num_exp x + dropped)%Z in
    let sign := if num_neg x then lit "-" else [] in
    let body :=
      if ((k <=? n) && (n <=? 21))%Z then ds ++ zeros (n - k)
      else if ((0 <? n) && (n <=? 21))%Z then
        firstn (Z.to_nat n) ds ++ lit "." ++ skipn (Z.to_nat n) ds
      else if ((-6 <? n) && (n <=? 0))%Z then lit "0." ++ zeros (- n) ++ ds
      else
        let e := (n - 1)%Z in
        let es := (if (0 <=? e)%Z then lit "+" else lit "-") ++ digits_of_N (Z.abs_N e) in
        match ds with
        | [d] => [d] ++ lit "e" ++ es
        | d :: r => [d] ++ lit "." ++ r ++ lit "e" ++ es
        | [] => []
        end in
    sign ++ body.

(** ToString, as string concatenation and template literals apply it. *)
Fixpoint to_string (v : value) : jsstring :=
  match v with
  | VUndef => lit "undefined"
  | VNull => lit "null"
  | VBool true => lit "true"
  | VBool false => lit "false"
  | VNum n => Number_toString n
  | VStr s => s
  | VArr items =>
      (fix elems (l : list value) : jsstring :=
         match l with
         | [] => []
         | x :: r =>
             let sx := match x with VUndef | VNull => [] | _ => to_string x end in
             match r with [] => sx | _ => sx ++ lit "," ++ elems r end
         end) items
  | VObj _ => lit "[object Object]"
  end.

(** ['literal' + v]. *)
Definition concat (s : jsstring) (v : value) : value := VStr (s ++ to_string v).

(** A thrown error, with its [message]. *)
Record exn := Error { message : jsstring }.

(** The TypeError of [x.k] on [null]; the wording is the engine's (here
    V8's), nothing below depends on it. *)
Definition null_property_error (k : jsstring) : exn :=
  Error (lit "Cannot read properties of null (reading '" ++ k ++ lit "')").

Definition not_iterable_error (what : jsstring) : exn :=
  Error (what ++ lit " is not iterable").

Definition not_a_function_error (what : jsstring) : exn :=
  Error (what ++ lit " is not a function").

End JS.

(** ** [JSON.parse] and [JSON.stringify] *)

Module JSON.

Import JS.
Local Open Scope N_scope.

Definition is_json_ws (c : N) : bool :=
  (c =? 32) || (c =? 9) || (c =? 10) || (c =? 13).

Definition is_digit (c : N) : bool := (48 <=? c) && (c <=? 57).

Fixpoint skip_ws (s : jsstring) : jsstring :=
  match s with
  | [] => []
  | c :: r => if is_json_ws c then skip_ws r else s
  end.

(** The result of a parsing step: a value and the rest of the input, a
    SyntaxError, or recursion budget used up (which [parse] rules out by
    the budget it gives, see [parse_value_fuel]). *)
Inductive pres (A : Type) :=
| POk (a : A) (rest : jsstring)
| PErr
| PFuel.
Arguments POk {A}.
Arguments PErr {A}.
Arguments PFuel {A}.

Definition hex_digit (c : N) : option N :=
  if is_digit c then Some (c - 48)
  else if (97 <=? c) && (c <=? 102) then Some (c - 87)
  else if (65 <=? c) && (c <=? 70) then Some (c - 55)
  else None.

Definition hex4 (a b c d : N) : option N :=
  match hex_digit a, hex_digit b, hex_digit c, hex_digit d with
  | Some x, Some y, Some z, Some w => Some (((x * 16 + y) * 16 + z) * 16 + w)
  | _, _, _, _ => None
  end.

(** The character a one-letter escape stands for. *)
Definition unescape (c : N) : option N :=
  if c =? 34 then Some 34           (* quote *)
  else if c =? 92 then Some 92      (* backslash *)
  else if c =? 47 then Some 47      (* slash *)
  else if c =? 98 then Some 8       (* b *)
  else if c =? 102 then Some 12     (* f *)
  else if c =? 110 then Some 10     (* n *)
  else if c =? 114 then Some 13     (* r *)
  else if c =? 116 then Some 9      (* t *)
  else None.

(** The characters of a string literal, after its opening quote. *)
Fixpoint parse_chars (s : jsstring) (acc : jsstring) : pres jsstring :=
  match s with
  | [] => PErr
  | c :: s1 =>
      if c =? 34 then POk (rev acc) s1
      else if c =? 92 then
        match s1 with
        | [] => PErr
        | e :: s2 =>
            if e =? 117 then
              match s2 with
              | h1 :: h2 :: h3 :: h4 :: s3 =>
                  match hex4 h1 h2 h3 h4 with
                  | Some u => parse_chars s3 (u :: acc)
                  | None => PErr
                  end
              | _ => PErr
              end
            else
              match unescape e with
              | Some u => parse_chars s2 (u :: acc)
              | None => PErr
              end
        end
      else if c <? 32 then PErr
      else parse_chars s1 (c :: acc)
  end.

Fixpoint take_digits (s : jsstring) : jsstring * jsstring :=
  match s with
  | c :: r =>
      if is_digit c then let '(ds, rest) := take_digits r in (c :: ds, rest)
      else ([], s)
  | [] => ([], [])
  end.

Definition digits_value (ds : jsstring) : N :=
  fold_left (fun a d => 10 * a + (d - 48)) ds 0.

(** A number literal: [-? int frac? exp?]. *)
Definition parse_number (s : jsstring) : pres value :=
  let '(neg, s1) :=
    match s with
    | c :: r => if c =? 45 then (true, r) else (false, s)
    | [] => (false, s)
    end in
  let '(ints, s2) := take_digits s1 in
  match ints with
  | [] => PErr
  | d :: more =>
      if (d =? 48) && negb (match more with [] => true | _ => false end) then PErr
      else
        let frac :=
          match s2 with
          | c :: r =>
              if c =? 46 then
                let '(fs, s3) := take_digits r in
                match fs with [] => None | _ => Some (fs, s3) end
              else Some ([], s2)
          | [] => Some ([], s2)
          end in
        match frac with
        | None => PErr
        | Some (fs, s3) =>
            let expo :=
              match s3 with
              | c :: r =>
                  if (c =? 101) || (c =? 69) then
                    let '(eneg, r1) :=
                      match r with
                      | g :: r' =>
                          if g =? 45 then (true, r')
                          else if g =? 43 then (false, r')
                          else (false, r)
                      | [] => (false, r)
                      end in
                    let '(es, s4) := take_digits r1 in
                    match es with
                    | [] => None
                    | _ =>
                        let e := Z.of_N (digits_value es) in
                        Some (if eneg then (- e)%Z else e, s4)
                    end
                  else Some (0%Z, s3)
              | [] => Some (0%Z, s3)
              end in
            match expo with
            | None => PErr
            | Some (e, s4) =>
                POk (VNum (Number neg (digits_value (ints ++ fs))
                                  (e - Z.of_nat (length fs))%Z)) s4
            end
        end
  end.

Fixpoint strip_prefix (p s : jsstring) : option jsstring :=
  match p, s with
  | [], _ => Some s
  | x :: p', y :: s' => if x =? y then strip_prefix p' s' else None
  | _ :: _, [] => None
  end.

(** A repeated key keeps its first position and takes the last value. *)
Fixpoint set_field (k : jsstring) (v : value) (fields : list (jsstring * value))
  : list (jsstring * value) :=
  match fields with
  | [] => [(k, v)]
  | (k', v') :: r =>
      if str_eqb k' k then (k', v) :: r else (k', v') :: set_field k v r
  end.

Fixpoint parse_value (fuel : nat) (s : jsstring) : pres value :=
  match fuel with
  | O => PFuel
  | S f =>
      match skip_ws s with
      | [] => PErr
      | c :: r =>
          if c =? 123 then
            match skip_ws r with
            | c2 :: r2 => if c2 =? 125 then POk (VObj []) r2 else parse_members f r []
            | [] => PErr
            end
          else if c =? 91 then
            match skip_ws r with
            | c2 :: r2 => if c2 =? 93 then POk (VArr []) r2 else parse_elements f r []
            | [] => PErr
            end
          else if c =? 34 then
            match parse_chars r [] with
            | POk str r' => POk (VStr str) r'
            | PErr => PErr
            | PFuel => PFuel
            end
          else if (c =? 45) || is_digit c then parse_number (c :: r)
          else
            match strip_prefix (lit "true") (c :: r) with
            | Some r' => POk (VBool true) r'
            | None =>
                match strip_prefix (lit "false") (c :: r) with
                | Some r' => POk (VBool false) r'
                | None =>
                    match strip_prefix (lit "null") (c :: r) with
                    | Some r' => POk VNull r'
                    | None => PErr
                    end
                end
            end
      end
  end

with parse_elements (fuel : nat) (s : jsstring) (acc : list value) : pres value :=
  match fuel with
  | O => PFuel
  | S f =>
      match parse_value f s with
      | POk v r =>
          match skip_ws r with
          | c :: r' =>
              if c =? 44 then parse_elements f r' (v :: acc)
              else if c =? 93 then POk (VArr (rev (v :: acc))) r'
              else PErr
          | [] => PErr
          end
      | PErr => PErr
      | PFuel => PFuel
      end
  end

with parse_members (fuel : nat) (s : jsstring) (acc : list (jsstring * value))
  : pres value :=
  match fuel with
  | O => PFuel
  | S f =>
      match skip_ws s with
      | c :: r =>
          if c =? 34 then
            match parse_chars r [] with
            | POk k r1 =>
                match skip_ws r1 with
                | c1 :: r2 =>
                    if c1 =? 58 then
                      match parse_value f r2 with
                      | POk v r3 =>
                          match skip_ws r3 with
                          | c3 :: r4 =>
                              if c3 =? 44 then parse_members f r4 (set_field k v acc)
                              else if c3 =? 125 then POk (VObj (set_field k v acc)) r4
                              else PErr
                          | [] => PErr
                          end
                      | PErr => PErr
                      | PFuel => PFuel
                      end
                    else PErr
                | [] => PErr
                end
            | PErr => PErr
            | PFuel => PFuel
            end
          else PErr
      | [] => PErr
      end
  end.

(** [JSON.parse(s)]; [None] is the SyntaxError. *)
Definition parse (s : jsstring) : option value :=
  match parse_value (2 * length s + 2) s with
  | POk v rest => match skip_ws rest with [] => Some v | _ => None end
  | _ => None
  end.

Definition hex_char (d : N) : N := if d <? 10 then 48 + d else 87 + d.

Definition escape_unit (c : N) : jsstring :=
  [92; 117] ++ [hex_char (c / 4096); hex_char ((c / 256) mod 16);
               hex_char ((c / 16) mod 16); hex_char (c mod 16)].

Definition is_high_surrogate (c : N) : bool := (55296 <=? c) && (c <=? 56319).
Definition is_low_surrogate (c : N) : bool := (56320 <=? c) && (c <=? 57343).

(** QuoteJSONString, without the enclosing quotes. *)
Fixpoint quote_chars (s : jsstring) : jsstring :=
  match s with
  | [] => []
  | c :: r =>
      if c =? 34 then [92; 34] ++ quote_chars r
      else if c =? 92 then [92; 92] ++ quote_chars r
      else if c =? 8 then [92; 98] ++ quote_chars r
      else if c =? 12 then [92; 102] ++ quote_chars r
      else if c =? 10 then [92; 110] ++ quote_chars r
      else if c =? 13 then [92; 114] ++ quote_chars r
      else if c =? 9 then [92; 116] ++ quote_chars r
      else if c <? 32 then escape_unit c ++ quote_chars r
      else if is_high_surrogate c then
        match r with
        | d :: r' =>
            if is_low_surrogate d then c :: d :: quote_chars r'
            else escape_unit c ++ quote_chars r
        | [] => escape_unit c
        end
      else if is_low_surrogate c then escape_unit c ++ quote_chars r
      else c :: quote_chars r
  end.

Definition quote (s : jsstring) : jsstring := [34] ++ quote_chars s ++ [34].

(** [JSON.stringify(v)]; [None] is the [undefined] it returns for
    [undefined].  A property holding [undefined] is left out, an array
    element holding it is written [null]. *)
Fixpoint stringify (v : value) : option jsstring :=
  match v with
  | VUndef => None
  | VNull => Some (lit "null")
  | VBool true => Some (lit "true")
  | VBool false => Some (lit "false")
  | VNum n => Some (Number_toString n)
  | VStr s => Some (quote s)
  | VArr items =>
      let texts :=
        (fix elems (l : list value) : list jsstring :=
           match l with
           | [] => []
           | x :: r =>
               match stringify x with
               | Some t => t
               | None => lit "null"
               end :: elems r
           end) items in
      Some (lit "[" ++ join (lit ",") texts ++ lit "]")
  | VObj fields =>
      let texts :=
        (fix members (l : list (jsstring * value)) : list jsstring :=
           match l with
           | [] => []
           | (k, x) :: r =>
               match stringify x with
               | Some t => (quote k ++ lit ":" ++ t) :: members r
               | None => members r
               end
           end) fields in
      Some (lit "{" ++ join (lit ",") texts ++ lit "}")
  end.

End JSON.

(** ** Effects: component state, exceptions, requests

    A handler runs against the state [W] of its component.  A thrown error
    keeps the state changes made before it, as in JavaScript. *)

Module Eff.

Import JS.

Inductive result (A : Type) :=
| Ok (a : A)
| Throw (e : exn).
Arguments Ok {A}.
Arguments Throw {A}.

Section Monad.

Variable W : Type.

Definition M (A : Type) : Type := W -> result A * W.

Definition ret {A} (a : A) : M A := fun w => (Ok a, w).

Definition bind {A B} (m : M A) (k : A -> M B) : M B :=
  fun w =>
    match m w with
    | (Ok a, w') => k a w'
    | (Throw e, w') => (Throw e, w')
    end.

Definition throw {A} (e : exn) : M A := fun w => (Throw e, w).

Definition modify (f : W -> W) : M unit := fun w => (Ok tt, f w).

Definition read {A} (f : W -> A) : M A := fun w => (Ok (f w), w).

(** [try { body } catch (e) { handler e }]. *)
Definition try_catch {A} (body : M A) (handler : exn -> M A) : M A :=
  fun w =>
    match body w with
    | (Ok a, w') => (Ok a, w')
    | (Throw e, w') => handler e w'
    end.

(** [try { body } finally { fin }]: [fin] runs on both exits and the
    outcome of [body] stands. *)
Definition finally {A} (body : M A) (fin : M unit) : M A :=
  fun w =>
    match body w with
    | (r, w') =>
        match fin w' with
        | (Ok _, w'') => (r, w'')
        | (Throw e, w'') => (Throw e, w'')
        end
    end.

(** [x.k], throwing on [null] and [undefined]. *)
Definition prop (v : value) (k : string) : M value :=
  match get v (lit k) with
  | Some x => ret x
  | None => throw (null_property_error (lit k))
  end.

End Monad.

Arguments ret {W A}.
Arguments bind {W A B}.
Arguments throw {W A}.
Arguments modify {W}.
Arguments read {W A}.
Arguments try_catch {W A}.
Arguments finally {W A}.
Arguments prop {W}.

(** What an awaited request comes back with: the parsed JSON body, or the
    error [fetch] or [resp.json()] rejected with. *)
Inductive outcome :=
| Resolves (data : value)
| Rejects (e : exn).

Definition await {W} (o : outcome) : M W value :=
  match o with
  | Resolves data => ret data
  | Rejects e => throw e
  end.

(** A POST request with a JSON body. *)
Record Request := POST { url : jsstring; body : jsstring }.

Definition stringify_body (v : value) : jsstring :=
  match JSON.stringify v with
  | Some s => s
  | None => lit "undefined"
  end.

End Eff.

Declare Scope eff_scope.
Delimit Scope eff_scope with eff.
Notation "x <- m ;; k" := (Eff.bind m (fun x => k))
  (at level 61, m at next level, right associativity) : eff_scope.
Notation "m ;;; k" := (Eff.bind m (fun _ => k))
  (at level 61, right associativity) : eff_scope.

(** ** web_crawler/frontend *)

Module WebCrawler.

Import JS Eff.
Local Open Scope eff_scope.

(** A chat of [App.jsx]: [{ id, title, messages }]. *)
Record Chat := mkChat { id : value; title : value; messages : value }.

(** The object handed to [updateChat]: the properties it names. *)
Record Patch := mkPatch {
  set_id : option value;
  set_title : option value;
  set_messages : option value }.

Definition patch_messages (msgs : value) : Patch := mkPatch None None (Some msgs).

(** [{ ...c, ...patch }]. *)
Definition merge (c : Chat) (p : Patch) : Chat :=
  mkChat (match set_id p with Some v => v | None => id c end)
         (match set_title p with Some v => v | None => title c end)
         (match set_messages p with Some v => v | None => messages c end).

(** [App.jsx], [newChat]: the chat put in front of the list. *)
Definition newChat : Chat := mkChat VNull (VStr (lit "New chat")) (VArr []).

(** [App.jsx], [updateChat(idx, patch)]:
    [s.map((c, i) => (i === idx ? { ...c, ...patch } : c))]. *)
Fixpoint App_updateChat (idx : nat) (patch : Patch) (chats : list Chat) : list Chat :=
  match chats with
  | [] => []
  | c :: r =>
      match idx with
      | O => merge c patch :: r
      | S i => c :: App_updateChat i patch r
      end
  end.

(** The state a [ChatWindow] works on: the chat its [updateChat] prop
    patches (in [App.jsx], the chat at the index the window was rendered
    for, see [App_updateChat]), its own [input] and [loading], and the
    requests it has sent. *)
Record World := mkWorld {
  store : Chat;
  input : jsstring;
  loading : bool;
  requests : list Request }.

Definition updateChat (p : Patch) : M World unit :=
  modify (fun w => mkWorld (merge (store w) p) (input w) (loading w) (requests w)).

Definition setInput (s : jsstring) : M World unit :=
  modify (fun w => mkWorld (store w) s (loading w) (requests w)).

Definition setLoading (b : bool) : M World unit :=
  modify (fun w => mkWorld (store w) (input w) b (requests w)).

Definition fetch (r : Request) : M World unit :=
  modify (fun w => mkWorld (store w) (input w) (loading w) (requests w ++ [r])).

(** [{ role: r, text: t }]. *)
Definition msg (r : string) (t : value) : value :=
  VObj [(lit "role", VStr (lit r)); (lit "text", t)].

Definition thinking : jsstring := lit "__thinking__".

(** The items [[...v]] spreads: those of an array, the code points of a
    string; anything else is not iterable. *)
Fixpoint code_points (s : jsstring) : list value :=
  match s with
  | [] => []
  | c :: r =>
      match r with
      | d :: r' =>
          if JSON.is_high_surrogate c && JSON.is_low_surrogate d
          then VStr [c; d] :: code_points r'
          else VStr [c] :: code_points r
      | [] => [VStr [c]]
      end
  end.

Definition spread (v : value) (what : string) : M World (list value) :=
  match v with
  | VArr items => ret items
  | VStr s => ret (code_points s)
  | _ => throw (not_iterable_error (lit what))
  end.

(** [items.filter((m) => m.text !== '__thinking__')]. *)
Fixpoint filter_not_thinking (items : list value) : M World (list value) :=
  match items with
  | [] => ret []
  | m :: r =>
      t <- prop m "text" ;;
      r' <- filter_not_thinking r ;;
      ret (if strict_eq_str t thinking then r' else m :: r')
  end.

Section Component.

(** The [chat] prop of the render whose handlers are running: they read
    it, and write through [updateChat]. *)
Variable chat : Chat.

Definition setMessages (msgs : value) : M World unit :=
  updateChat (patch_messages msgs).

Definition appendThinking : M World unit :=
  items <- spread (or_else (messages chat) (VArr [])) "chat.messages" ;;
  updateChat (patch_messages (VArr (items ++ [msg "assistant" (VStr thinking)]))).

Definition removeThinking : M World unit :=
  match or_else (messages chat) (VArr []) with
  | VArr items =>
      msgs <- filter_not_thinking items ;;
      updateChat (patch_messages (VArr msgs))
  | _ => throw (not_a_function_error (lit "(chat.messages || []).filter"))
  end.

(** What [send] has in hand when it reaches its [await]. *)
Record Pending := mkPending {
  currentInput : jsstring;
  optimisticMessages : list value }.

Definition start_url : jsstring := lit "http://localhost:8000/start".

Definition reply_url : jsstring :=
  lit "http://localhost:8000/chat/" ++ to_string (id chat) ++ lit "/reply".

Definition message_body (text : jsstring) : jsstring :=
  stringify_body (VObj [(lit "message", VStr text)]).

(** [{ columns: data.columns, rows: data.rows }], stringified, as an
    assistant message. *)
Definition table_message (columns rows : value) : value :=
  msg "assistant"
      (VStr (stringify_body (VObj [(lit "columns", columns); (lit "rows", rows)]))).

(** The [catch] block of [send]. *)
Definition on_error (p : Pending) (e : exn) : M World unit :=
  removeThinking ;;;
  updateChat (patch_messages
    (VArr (optimisticMessages p
           ++ [msg "assistant" (concat (lit "Network error: ") (VStr (message e)))]))).

(** [send], up to the request: the early return on a blank input, the
    optimistic user message, the placeholder, the [fetch]. *)
Definition send_begin : M World (option Pending) :=
  current <- read input ;;
  match trim current with
  | [] => ret None
  | _ =>
      setInput [] ;;;
      items <- spread (or_else (messages chat) (VArr [])) "chat.messages" ;;
      let p := mkPending current (items ++ [msg "user" (VStr current)]) in
      updateChat (patch_messages (VArr (optimisticMessages p))) ;;;
      setLoading true ;;;
      try_catch
        (appendThinking ;;;
         fetch (if truthy (id chat)
                then POST reply_url (message_body current)
                else POST start_url (message_body current)) ;;;
         ret (Some p))
        (fun e => finally (on_error p e ;;; ret None) (setLoading false))
  end.

(** The branch of [send] that starts a new chat, from [resp.json()] on. *)
Definition start_chat (p : Pending) (o : outcome) : M World unit :=
  data <- await o ;;
  removeThinking ;;;
  ok <- prop data "ok" ;;
  if truthy ok then
    chat_id <- prop data "chat_id" ;;
    data_title <- prop data "title" ;;
    data_messages <- prop data "messages" ;;
    updateChat (mkPatch
      (Some chat_id)
      (Some (or_else data_title
               (VStr (join (lit " ") (firstn 3 (split_on 32%N (currentInput p) []))))))
      (Some (or_else data_messages (VArr (optimisticMessages p))))) ;;;
    bot <- prop data "bot" ;;
    if negb (truthy data_messages) && truthy bot then
      updateChat (patch_messages
        (VArr (optimisticMessages p ++ [msg "assistant" bot])))
    else ret tt
  else
    error <- prop data "error" ;;
    updateChat (patch_messages
      (VArr (optimisticMessages p
             ++ [msg "assistant"
                     (concat (lit "Error: ") (or_else error (VStr (lit "Unknown"))))]))).

(** The branch of [send] that replies within an existing chat. *)
Definition reply_chat (p : Pending) (o : outcome) : M World unit :=
  data <- await o ;;
  removeThinking ;;;
  ok <- prop data "ok" ;;
  if truthy ok then
    data_messages <- prop data "messages" ;;
    if truthy data_messages then
      finalMessages <- spread data_messages "data.messages" ;;
      columns <- prop data "columns" ;;
      rows <- prop data "rows" ;;
      updateChat (patch_messages
        (VArr (finalMessages
               ++ (if truthy (and_then columns rows)
                   then [table_message columns rows] else []))))
    else
      bot_text <- prop data "bot_text" ;;
      columns <- prop data "columns" ;;
      rows <- prop data "rows" ;;
      updateChat (patch_messages
        (VArr (optimisticMessages p
               ++ (if truthy bot_text then [msg "assistant" bot_text] else [])
               ++ (if truthy (and_then columns rows)
                   then [table_message columns rows] else []))))
  else
    error <- prop data "error" ;;
    updateChat (patch_messages
      (VArr (optimisticMessages p
             ++ [msg "assistant"
                     (concat (lit "Error: ") (or_else error (VStr (lit "Unknown"))))]))).

(** [send], from the outcome of the request to its end: the rest of the
    [try] block, the [catch], the [finally]. *)
Definition send_resume (p : Pending) (o : outcome) : M World unit :=
  finally
    (try_catch
       (if truthy (id chat) then reply_chat p o else start_chat p o)
       (on_error p))
    (setLoading false).

(** [send()], with its request coming back with [o]. *)
Definition send (o : outcome) : M World unit :=
  pending <- send_begin ;;
  match pending with
  | Some p => send_resume p o
  | None => ret tt
  end.

End Component.

(** Typing into the input, which is disabled while [loading]. *)
Definition type_text (text : jsstring) (w : World) : World :=
  if loading w then w else snd (setInput text w).

(** A click on Send (or Enter): [send] of the current render runs, so
    [chat] is the stored chat as it stands; the button and the input are
    disabled while [loading]. *)
Definition click_send (o : outcome) (w : World) : World :=
  if loading w then w else snd (send (store w) o w).

(** One turn: the user types [text] and sends it, the request comes back
    with [o]. *)
Definition turn (text : jsstring) (o : outcome) (w : World) : World :=
  click_send o (type_text text w).

(** The test of the filter of [removeThinking], on a message that is not
    [null]. *)
Definition keep (m : value) : bool :=
  negb (strict_eq_str (field m "text") thinking).

(** The world after [updateChat({ messages: v })]. *)
Definition with_messages (v : value) (w : World) : World :=
  mkWorld (merge (store w) (patch_messages v)) (input w) (loading w) (requests w).

(** A chat the window can show: its messages are an array and none of
    them is [null] (the render reads [m.role] and [m.text] of each). *)
Definition shown (c : Chat) (items : list value) : Prop :=
  messages c = VArr items /\ forallb (fun m => negb (nullish m)) items = true.

(** The placeholder [appendThinking] appends, as a message of any origin
    would have to look to be one. *)
Definition is_placeholder (m : value) : bool :=
  strict_eq_str (field m "role") (lit "assistant")
  && strict_eq_str (field m "text") thinking.

(** The response brings no placeholder of its own: none in its history,
    and its answer is not the reserved text. *)
Definition brings_no_placeholder (o : outcome) : Prop :=
  forall data, o = Resolves data ->
    (forall items, field data "messages" = VArr items ->
                   forallb (fun m => negb (is_placeholder m)) items = true)
    /\ strict_eq_str (field data "bot") thinking = false
    /\ strict_eq_str (field data "bot_text") thinking = false.

(** The message lists a turn can leave in the chat, by the path [send]
    took: [optimistic] is the list before the turn plus the user's
    message, [data] the body of the response. *)
Inductive commits (chat : Chat) (optimistic : list value) : outcome -> value -> Prop :=
| commit_caught (o : outcome) (t : jsstring) :
    commits chat optimistic o
      (VArr (optimistic ++ [msg "assistant" (VStr (lit "Network error: " ++ t))]))
| commit_not_ok (data : value) (t : jsstring) :
    truthy (field data "ok") = false ->
    commits chat optimistic (Resolves data)
      (VArr (optimistic ++ [msg "assistant" (VStr (lit "Error: " ++ t))]))
| commit_start_history (data : value) :
    truthy (id chat) = false ->
    truthy (field data "ok") = true ->
    truthy (field data "messages") = true ->
    commits chat optimistic (Resolves data) (field data "messages")
| commit_start_bot (data : value) :
    truthy (id chat) = false ->
    truthy (field data "ok") = true ->
    truthy (field data "messages") = false ->
    commits chat optimistic (Resolves data)
      (VArr (optimistic
             ++ if truthy (field data "bot")
                then [msg "assistant" (field data "bot")] else []))
| commit_reply_history (data : value) (history : list value) :
    truthy (id chat) = true ->
    truthy (field data "ok") = true ->
    truthy (field data "messages") = true ->
    field data "messages" = VArr history
    \/ (exists s, field data "messages" = VStr s /\ history = code_points s) ->
    commits chat optimistic (Resolves data)
      (VArr (history
             ++ if truthy (field data "columns") && truthy (field data "rows")
                then [table_message (field data "columns") (field data "rows")]
                else []))
| commit_reply_fallback (data : value) :
    truthy (id chat) = true ->
    truthy (field data "ok") = true ->
    truthy (field data "messages") = false ->
    commits chat optimistic (Resolves data)
      (VArr (optimistic
             ++ (if truthy (field data "bot_text")
                 then [msg "assistant" (field data "bot_text")] else [])
             ++ if truthy (field data "columns") && truthy (field data "rows")
                then [table_message (field data "columns") (field data "rows")]
                else [])).

(** The response is not one whose history [send] takes over. *)
Definition without_history (o : outcome) : Prop :=
  forall data, o = Resolves data ->
    truthy (field data "ok") = true -> truthy (field data "messages") = false.

(** The request of a reply addressed to the chat [chat_id]. *)
Definition addressed_to (chat_id : value) (r : Request) : Prop :=
  url r = lit "http://localhost:8000/chat/" ++ to_string chat_id ++ lit "/reply".

(** No condition on a request. *)
Definition anything (r : Request) : Prop := True.

(** A computation that leaves the id of the chat as it is and sends
    nothing but requests that are [sendable]. *)
Definition steady {A : Type} (sendable : Request -> Prop) (chat_id : value)
    (m : M World A) : Prop :=
  forall w, id (store w) = chat_id ->
    id (store (snd (m w))) = chat_id
    /\ exists sent, requests (snd (m w)) = requests w ++ sent
                    /\ Forall sendable sent.

End WebCrawler.

(** [ChatMessage.jsx]: what a message is shown as. *)
Module ChatMessage.

Import JS Eff.

Inductive renderKind :=
| Thinking                               (* the three dots *)
| Table (columns rows : value)           (* [TableView] *)
| Plain.                                 (* the text, line by line *)

(** The [try] block: [text.trim()], the [startsWith] test, [JSON.parse],
    the check of [columns] and [rows]; [None] is an exception. *)
Definition try_parse (text : value) : option value :=
  match text with
  | VStr t =>
      let trimmed := trim t in
      if startsWith trimmed 123%N || startsWith trimmed 91%N then
        match JSON.parse trimmed with
        | Some parsed =>
            match get parsed (lit "columns"), get parsed (lit "rows") with
            | Some columns, Some rows =>
                if negb (truthy columns) || negb (truthy rows)
                then Some VNull else Some parsed
            | _, _ => None
            end
        | None => None
        end
      else Some VNull
  | _ => None                            (* [text.trim] is not a function *)
  end.

(** The variable [parsed] once the [if] and its [try]/[catch] are done. *)
Definition parsed_of (role text : value) : value :=
  if strict_eq_str role (lit "assistant") && truthy text then
    match try_parse text with
    | Some parsed => parsed
    | None => VNull
    end
  else VNull.

(** The branch the bubble takes. *)
Definition classify (role text : value) : renderKind :=
  if strict_eq_str text WebCrawler.thinking then Thinking
  else
    let parsed := parsed_of role text in
    if truthy parsed then
      match get parsed (lit "columns"), get parsed (lit "rows") with
      | Some columns, Some rows => Table columns rows
      | _, _ => Plain
      end
    else Plain.

Definition is_table (role text : value) : bool :=
  match classify role text with
  | Table _ _ => true
  | _ => false
  end.

(** The classification as the specification words it: the text is valid
    structured data exposing non-empty [columns] and [rows]. *)
Definition spec_table (text : jsstring) : Prop :=
  exists parsed columns rows,
    JSON.parse text = Some parsed
    /\ get parsed (lit "columns") = Some (VArr columns)
    /\ get parsed (lit "rows") = Some (VArr rows)
    /\ columns <> [] /\ rows <> [].

Definition is_array (v : value) : bool :=
  match v with
  | VArr _ => true
  | _ => false
  end.

(** A cell of [TableView], kept as the row and the column it is read
    from: the text it shows, [String(r[c] ?? '')], is not modelled. *)
Definition cell : Type := (value * value)%type.

(** A row of the body, [columns.map((c, idx) => <td>...r[c]...</td>)]:
    [r[c]] throws on a row that is [null]. *)
Definition TableView_row (columns : list value) (r : value) : result (list cell) :=
  match columns with
  | [] => Ok []
  | c :: _ =>
      if nullish r then Throw (null_property_error (to_string c))
      else Ok (map (fun c => (r, c)) columns)
  end.

Fixpoint TableView_body (columns rows : list value) : result (list (list cell)) :=
  match rows with
  | [] => Ok []
  | r :: rest =>
      match TableView_row columns r with
      | Ok cells =>
          match TableView_body columns rest with
          | Ok body => Ok (cells :: body)
          | Throw e => Throw e
          end
      | Throw e => Throw e
      end
  end.

(** [TableView], as far as it evaluates [columns] and [rows]: the header
    [columns.map(...)], then the body [rows.map(...)]; [map] is a method
    of arrays only. *)
Definition TableView (columns rows : value) : result (list value * list (list cell)) :=
  match columns with
  | VArr cs =>
      match rows with
      | VArr rs =>
          match TableView_body cs rs with
          | Ok body => Ok (cs, body)
          | Throw e => Throw e
          end
      | _ => Throw (not_a_function_error (lit "rows.map"))
      end
  | _ => Throw (not_a_function_error (lit "columns.map"))
  end.

End ChatMessage.

(** ** root/frontend: the [App] component *)

Module RootApp.

Import JS Eff.
Local Open Scope eff_scope.

Inductive Role := user | assistant | system.

(** [type ChatMessage = { role, text }]; at run time [text] holds whatever
    the response carried. *)
Record ChatMessage := mkMessage { role : Role; text : value }.

(** [type CrawlState]. *)
Record CrawlState := mkCrawlState {
  knowledge_index : value;
  allowed_metrics : value;
  blocked_metrics : value;
  dataset_preview : value;
  low_trust_present : value }.

Inductive CrawlStage := idle | searching | extracting | done.

(** The [clarification] state: [{ message, options }]. *)
Record Clarification := mkClarification { message : value; options : value }.

Record World := mkWorld {
  messages : list ChatMessage;
  input : jsstring;
  crawlStage : CrawlStage;
  crawlState : option CrawlState;
  clarification : option Clarification;
  requests : list Request }.

Definition setMessages (f : list ChatMessage -> list ChatMessage) : M World unit :=
  modify (fun w => mkWorld (f (messages w)) (input w) (crawlStage w) (crawlState w)
                           (clarification w) (requests w)).

Definition setInput (s : jsstring) : M World unit :=
  modify (fun w => mkWorld (messages w) s (crawlStage w) (crawlState w)
                           (clarification w) (requests w)).

Definition setCrawlStage (s : CrawlStage) : M World unit :=
  modify (fun w => mkWorld (messages w) (input w) s (crawlState w)
                           (clarification w) (requests w)).

Definition setCrawlState (s : option CrawlState) : M World unit :=
  modify (fun w => mkWorld (messages w) (input w) (crawlStage w) s
                           (clarification w) (requests w)).

Definition setClarification (c : option Clarification) : M World unit :=
  modify (fun w => mkWorld (messages w) (input w) (crawlStage w) (crawlState w)
                           c (requests w)).

Definition fetch (r : Request) : M World unit :=
  modify (fun w => mkWorld (messages w) (input w) (crawlStage w) (crawlState w)
                           (clarification w) (requests w ++ [r])).

Definition crawl_request (query : jsstring) : Request :=
  POST (lit "/crawl") (stringify_body (VObj [(lit "query", VStr query)])).

(** [{ user_query: query, ...state }]. *)
Definition chat_request (query : jsstring) (state : CrawlState) : Request :=
  POST (lit "/chat/web")
       (stringify_body (VObj [(lit "user_query", VStr query);
                              (lit "knowledge_index", knowledge_index state);
                              (lit "allowed_metrics", allowed_metrics state);
                              (lit "blocked_metrics", blocked_metrics state);
                              (lit "dataset_preview", dataset_preview state);
                              (lit "low_trust_present", low_trust_present state)])).

Definition extracted_text : jsstring :=
  lit "Web data extracted. Evaluating whether I can answer" ++ [8230%N].

(** [handleSend], up to the crawl request. *)
Definition handleSend_begin (query : jsstring) : M World unit :=
  setMessages (fun m => m ++ [mkMessage user (VStr query)]) ;;;
  setClarification None ;;;
  setCrawlStage searching ;;;
  fetch (crawl_request query).

(** [handleSend], from the crawl response to the chat request. *)
Definition handleSend_crawled (query : jsstring) (o : outcome) : M World CrawlState :=
  crawlRes <- await o ;;
  setCrawlStage extracting ;;;
  ki <- prop crawlRes "knowledge_index" ;;
  am <- prop crawlRes "allowed_metrics" ;;
  bm <- prop crawlRes "blocked_metrics" ;;
  dp <- prop crawlRes "dataset_preview" ;;
  lt <- prop crawlRes "low_trust_present" ;;
  let state := mkCrawlState ki (or_else am (VArr [])) (or_else bm (VArr []))
                            (or_else dp (VArr [])) lt in
  setCrawlState (Some state) ;;;
  setCrawlStage done ;;;
  setMessages (fun m => m ++ [mkMessage system (VStr extracted_text)]) ;;;
  fetch (chat_request query state) ;;;
  ret state.

(** [handleSend], from the chat response on. *)
Definition handleSend_answered (state : CrawlState) (o : outcome) : M World unit :=
  chatRes <- await o ;;
  mode <- prop chatRes "mode" ;;
  if strict_eq_str mode (lit "CLARIFICATION_ONLY") then
    response <- prop chatRes "response" ;;
    setClarification (Some (mkClarification response (allowed_metrics state)))
  else
    response <- prop chatRes "response" ;;
    setMessages (fun m => m ++ [mkMessage assistant response]).

(** [handleSend(query)] with the crawl request coming back with [crawled]
    and the chat request, when it is reached, with [answered].  There is no
    [try]: an error ends the function as a rejected promise. *)
Definition handleSend (query : jsstring) (crawled answered : outcome) : M World unit :=
  handleSend_begin query ;;;
  state <- handleSend_crawled query crawled ;;
  handleSend_answered state answered.

(** [handleClarificationSelect(metric)], up to the crawl request of the
    turn it starts: [`${input} by ${metric}`]. *)
Definition clarification_query (w : World) (metric : jsstring) : jsstring :=
  input w ++ lit " by " ++ metric.

Definition handleClarificationSelect (metric : jsstring) (crawled answered : outcome)
  : M World unit :=
  fun w => handleSend (clarification_query w metric) crawled answered w.

(** The Send button and the Enter key:
    [if (input.trim()) { handleSend(input); setInput("") }].  The call is
    not awaited: [setInput] runs before the crawl response arrives. *)
Definition click_send (crawled answered : outcome) : M World unit :=
  fun w =>
    match trim (input w) with
    | [] => (Ok tt, w)
    | _ =>
        let query := input w in
        (handleSend_begin query ;;;
         setInput [] ;;;
         state <- handleSend_crawled query crawled ;;
         handleSend_answered state answered) w
    end.

Definition initial : World := mkWorld [] [] idle None None [].

(** The crawl state [handleSend] builds from a crawl response that is not
    [null]. *)
Definition state_of (crawlRes : value) : CrawlState :=
  mkCrawlState (field crawlRes "knowledge_index")
               (or_else (field crawlRes "allowed_metrics") (VArr []))
               (or_else (field crawlRes "blocked_metrics") (VArr []))
               (or_else (field crawlRes "dataset_preview") (VArr []))
               (field crawlRes "low_trust_present").

(** [CrawlProgress], as [App] renders it (without [urls]): nothing while
    the stage is idle, else the status line. *)
Definition CrawlProgress (stage : CrawlStage) : option jsstring :=
  match stage with
  | idle => None
  | searching => Some (lit "Searching the web" ++ [8230%N])
  | extracting => Some (lit "Extracting data from sources" ++ [8230%N])
  | done => Some (lit "Extraction complete")
  end.

End RootApp.

(** ** root/frontend: the session store and the [ChatWindow] over it *)

Module SessionStore.

Import JS Eff.
Local Open Scope eff_scope.

(** [interface WebSession]. *)
Record WebSession := mkSession {
  knowledgeIndex : value;
  allowedMetrics : value;
  blockedMetrics : value;
  datasetPreview : value;
  lowTrust : value }.

(** [export const session]. *)
Definition session : WebSession :=
  mkSession VNull (VArr []) (VArr []) (VArr []) (VBool false).

(** The module-level [session] object and the state of [ChatWindow]. *)
Record World := mkWorld {
  store : WebSession;
  messages : list value;
  input : jsstring;
  requests : list Request }.

Definition setMessages (f : list value -> list value) : M World unit :=
  modify (fun w => mkWorld (store w) (f (messages w)) (input w) (requests w)).

Definition write (f : WebSession -> WebSession) : M World unit :=
  modify (fun w => mkWorld (f (store w)) (messages w) (input w) (requests w)).

Definition fetch (r : Request) : M World unit :=
  modify (fun w => mkWorld (store w) (messages w) (input w) (requests w ++ [r])).

Definition msg (r : string) (t : value) : value :=
  VObj [(lit "role", VStr (lit r)); (lit "text", t)].

(** [api/crawl.ts]. *)
Definition crawl (query : jsstring) : M World unit :=
  fetch (POST (lit "/crawl") (stringify_body (VObj [(lit "query", VStr query)]))).

(** [api/chatWeb.ts]. *)
Definition chatWeb (payload : value) : M World unit :=
  fetch (POST (lit "/chat/web") (stringify_body payload)).

Definition searching_text : jsstring := lit "Searching the web" ++ [8230%N].

(** [handleSend()] of [ChatWindow]: the user message, the crawl, the
    writes to [session], the chat over what was written, the answer. *)
Definition handleSend (crawled answered : outcome) : M World unit :=
  text <- read input ;;
  setMessages (fun m => m ++ [msg "user" (VStr text)]) ;;;
  crawl text ;;;
  crawlResult <- await crawled ;;
  setMessages (fun m => m ++ [msg "system" (VStr searching_text)]) ;;;
  ki <- prop crawlResult "knowledge_index" ;;
  write (fun s => mkSession ki (allowedMetrics s) (blockedMetrics s)
                            (datasetPreview s) (lowTrust s)) ;;;
  am <- prop crawlResult "allowed_metrics" ;;
  write (fun s => mkSession (knowledgeIndex s) am (blockedMetrics s)
                            (datasetPreview s) (lowTrust s)) ;;;
  dp <- prop crawlResult "dataset_preview" ;;
  write (fun s => mkSession (knowledgeIndex s) (allowedMetrics s) (blockedMetrics s)
                            dp (lowTrust s)) ;;;
  lt <- prop crawlResult "low_trust_present" ;;
  write (fun s => mkSession (knowledgeIndex s) (allowedMetrics s) (blockedMetrics s)
                            (datasetPreview s) lt) ;;;
  s <- read store ;;
  chatWeb (VObj [(lit "user_query", VStr text);
                 (lit "knowledge_index", knowledgeIndex s);
                 (lit "allowed_metrics", allowedMetrics s);
                 (lit "blocked_metrics", VArr []);
                 (lit "low_trust_present", lowTrust s);
                 (lit "dataset_preview", datasetPreview s)]) ;;;
  chatResult <- await answered ;;
  response <- prop chatResult "response" ;;
  setMessages (fun m => m ++ [msg "assistant" response]).

Definition initial : World := mkWorld session [] [] [].

End SessionStore.

(** ** web_crawler/frontend: what a turn leaves alone, the title, the lines *)

Module Window.

Import JS Eff WebCrawler.

(** A computation every run of which ends in a world related by [R] to the
    one it started in. *)
Definition preserves {A : Type} (R : World -> World -> Prop) (m : M World A) : Prop :=
  forall w, R w (snd (m w)).

Definition same_requests (w w' : World) : Prop := requests w' = requests w.

Definition same_input (w w' : World) : Prop := input w' = input w.

(** The id and the title of the chat. *)
Definition same_heading (w w' : World) : Prop :=
  id (store w') = id (store w) /\ title (store w') = title (store w).

(** [currentInput.split(' ').slice(0,3).join(' ')], the title [send] gives
    a chat when the response has none. *)
Definition first_words (text : jsstring) : jsstring :=
  join (lit " ") (firstn 3 (split_on 32%N text [])).

(** The number of units of [s] equal to [c]. *)
Definition count_unit (c : N) (s : jsstring) : nat :=
  length (filter (N.eqb c) s).

(** The request [send] makes for [text] from a render holding [chat]. *)
Definition request_of (chat : Chat) (text : jsstring) : Request :=
  if truthy (id chat)
  then POST (reply_url chat) (message_body text)
  else POST start_url (message_body text).

End Window.

(** [ChatMessage.jsx]: the lines of a plain text,
    [text.split('\n').map((line) => line || '\u00A0')]. *)
Module ChatView.

Import JS.



End ChatView.

(** ** web_crawler/frontend: [App.jsx], the list of chats and its windows *)

Module Shell.

Import JS Eff WebCrawler.

(** A request that is out.  The [send] that awaits it keeps the props of
    the render it was called in: [chat], and an [updateChat] bound to the
    index that was active then, [(patch) => updateChat(activeId, patch)];
    and its own [currentInput] and [optimisticMessages].  [mounted] tells
    whether the window that sent it is still there. *)
Record Flight := mkFlight {
  bound : nat;
  captured : Chat;
  pending : Pending;
  mounted : bool }.

(** The state of [App] and of the [ChatWindow] it renders: [chats] and
    [activeId]; the [input] and [loading] of the window; the requests sent
    so far, and those that have not come back. *)
Record App := mkApp {
  chats : list Chat;
  activeId : option nat;
  window_input : jsstring;
  window_loading : bool;
  requests_sent : list Request;
  in_flight : list Flight }.

(** [App] as it starts: no chat, no window. *)
Definition no_chat : App := mkApp [] None [] false [] [].

(** The list with [x] at [idx]: [s.map((c, i) => (i === idx ? x : c))]. *)
Fixpoint put (idx : nat) (x : Chat) (l : list Chat) : list Chat :=
  match l with
  | [] => []
  | c :: r =>
      match idx with
      | O => x :: r
      | S i => c :: put i x r
      end
  end.

(** What a window whose [updateChat] is bound to [idx] works on: the chat
    at [idx] of the list as it is now.  A window is rendered only for an
    index the list has and the list never loses a chat, so the default is
    never reached. *)
Definition window_at (idx : nat) (a : App) : World :=
  mkWorld (nth idx (chats a) newChat) (window_input a) (window_loading a)
          (requests_sent a).

(** A piece of [send] run from a closure bound to [idx]: each of its
    [updateChat(patch)] is [updateChat(idx, patch)] on the list (lemmas
    [in_window_updateChat] and [in_window_bind]).  [setInput] and
    [setLoading] reach the window only while it is mounted ([live]). *)
Definition in_window {A : Type} (idx : nat) (live : bool) (m : M World A) : M App A :=
  fun a =>
    match m (window_at idx a) with
    | (r, w) =>
        (r, mkApp (put idx (store w) (chats a)) (activeId a)
                  (if live then input w else window_input a)
                  (if live then loading w else window_loading a)
                  (requests w) (in_flight a))
    end.

(** [newChat()]: the new chat in front, [activeId] set to [null] and, in
    a timeout, to 0.  The branch of line 56 takes the window away while
    [activeId] is [null]; the one rendered next starts from [useState('')]
    and [useState(false)], and what the old one still sets is lost. *)
Definition App_newChat (a : App) : App :=
  mkApp (newChat :: chats a) (Some O) [] false (requests_sent a)
        (map (fun f => mkFlight (bound f) (captured f) (pending f) false)
             (in_flight a)).

(** A click on a chat of the side bar: [setActiveId(i)].  The window
    stays the same component, with its [input] and [loading]. *)
Definition App_select (i : nat) (a : App) : App :=
  match nth_error (chats a) i with
  | Some _ => mkApp (chats a) (Some i) (window_input a) (window_loading a)
                    (requests_sent a) (in_flight a)
  | None => a
  end.

(** The user types [text] and sends it: [send] of the window on the
    active chat runs up to its [await]. *)
Definition App_send (text : jsstring) (a : App) : App :=
  match activeId a with
  | Some idx =>
      match nth_error (chats a) idx with
      | Some chat =>
          if window_loading a then a
          else
            match in_window idx true (send_begin chat)
                    (mkApp (chats a) (activeId a) text false
                           (requests_sent a) (in_flight a)) with
            | (Ok (Some p), a') =>
                mkApp (chats a') (activeId a') (window_input a') (window_loading a')
                      (requests_sent a')
                      (in_flight a' ++ [mkFlight idx chat p true])
            | (_, a') => a'
            end
      | None => a
      end
  | None => a
  end.

Fixpoint without {A : Type} (k : nat) (l : list A) : list A :=
  match l with
  | [] => []
  | x :: r =>
      match k with
      | O => r
      | S i => x :: without i r
      end
  end.

(** The [k]-th request in flight comes back with [o]: the [send] that
    awaited it goes on to its end, with the props it was called with. *)
Definition App_response (k : nat) (o : outcome) (a : App) : App :=
  match nth_error (in_flight a) k with
  | Some f =>
      snd (in_window (bound f) (mounted f) (send_resume (captured f) (pending f) o)
             (mkApp (chats a) (activeId a) (window_input a) (window_loading a)
                    (requests_sent a) (without k (in_flight a))))
  | None => a
  end.

(** What happens to [App]: the user's clicks, and the responses. *)
Inductive event :=
| NewChat
| Select (i : nat)
| Send (text : jsstring)
| Response (k : nat) (o : outcome).

Definition step (e : event) (a : App) : App :=
  match e with
  | NewChat => App_newChat a
  | Select i => App_select i a
  | Send text => App_send text a
  | Response k o => App_response k o a
  end.

Fixpoint run (events : list event) (a : App) : App :=
  match events with
  | [] => a
  | e :: rest => run rest (step e a)
  end.

(** Whether a message list holds the placeholder of [appendThinking]. *)
Definition holds_placeholder (msgs : value) : bool :=
  match msgs with
  | VArr items => existsb is_placeholder items
  | _ => false
  end.

(** The indices [App] and the requests in flight hold are indices of the
    list. *)
Definition well_bound (a : App) : Prop :=
  (forall i, activeId a = Some i -> (i < length (chats a))%nat)
  /\ Forall (fun f => (bound f < length (chats a))%nat) (in_flight a).

End Shell.

(** ** Sample payloads and states *)

Module Samples.

Import JS Eff.

(** A string between double quotes, as it stands in a JSON text. *)
Definition quoted (s : string) : jsstring := [34%N] ++ lit s ++ [34%N].

Definition str (s : string) : value := VStr (lit s).

(** [{"columns":[],"rows":[]}] *)
Definition empty_table_text : jsstring :=
  lit "{" ++ quoted "columns" ++ lit ":[]," ++ quoted "rows" ++ lit ":[]}".

(** [{"columns":["name"],"rows":[{"name":"T-Hub"}]}] *)
Definition table_text : jsstring :=
  lit "{" ++ quoted "columns" ++ lit ":[" ++ quoted "name" ++ lit "],"
  ++ quoted "rows" ++ lit ":[{" ++ quoted "name" ++ lit ":" ++ quoted "T-Hub" ++ lit "}]}".

(** A chat of the web crawler front-end that has had a first turn. *)
Definition open_chat : WebCrawler.World :=
  WebCrawler.mkWorld
    (WebCrawler.mkChat (VNum (of_N 7)) (str "top incubators")
       (VArr [WebCrawler.msg "user" (str "top incubators");
              WebCrawler.msg "assistant" (str "Here they are")]))
    [] false [].

(** A chat just created by [newChat]. *)
Definition new_chat : WebCrawler.World :=
  WebCrawler.mkWorld WebCrawler.newChat [] false [].

Definition backend_history : list value :=
  [WebCrawler.msg "user" (str "top incubators");
   WebCrawler.msg "assistant" (str "Here they are");
   WebCrawler.msg "user" (str "and by city");
   WebCrawler.msg "assistant" (str "See the table")].

(** A reply with a full history and a table next to it. *)
Definition reply_with_table : value :=
  VObj [(lit "ok", VBool true);
        (lit "messages", VArr backend_history);
        (lit "columns", VArr [str "name"]);
        (lit "rows", VArr [VObj [(lit "name", str "T-Hub")]])].

(** A reply with a full history and nothing else. *)
Definition reply_history_only : value :=
  VObj [(lit "ok", VBool true); (lit "messages", VArr backend_history)].

(** The answer to a first message, without a history. *)
Definition started : value :=
  VObj [(lit "ok", VBool true); (lit "chat_id", VNum (of_N 7));
        (lit "title", str "Greeting"); (lit "bot", str "hello")].

(** A crawl response with every field. *)
Definition crawl_full : value :=
  VObj [(lit "knowledge_index", str "kx-1");
        (lit "allowed_metrics", VArr [str "country"; str "sector"]);
        (lit "blocked_metrics", VArr [str "valuation"]);
        (lit "dataset_preview", VArr [VObj [(lit "name", str "T-Hub")]]);
        (lit "low_trust_present", VBool false)].

(** A crawl response without the optional fields. *)
Definition crawl_bare : value :=
  VObj [(lit "knowledge_index", str "kx-2");
        (lit "low_trust_present", VBool false)].

(** A chat response that asks for a clarification, its text naming
    options of its own. *)
Definition chat_clarify : value :=
  VObj [(lit "mode", str "CLARIFICATION_ONLY");
        (lit "response", str "Rank by revenue or by headcount?")].

Definition chat_answer : value :=
  VObj [(lit "mode", str "ANSWER"); (lit "response", str "T-Hub leads.")].

Definition failed_to_fetch : exn := Error (lit "Failed to fetch").

(** The root [App] with a query typed in the box. *)
Definition typed (s : string) : RootApp.World :=
  RootApp.mkWorld [] (lit s) RootApp.idle None None [].

(** A response that is not [ok]. *)
Definition refused : value :=
  VObj [(lit "ok", VBool false); (lit "error", str "no such dataset")].

(** A reply with an answer and a table, and no history. *)
Definition reply_bot_table : value :=
  VObj [(lit "ok", VBool true);
        (lit "bot_text", str "By city:");
        (lit "columns", VArr [str "city"]);
        (lit "rows", VArr [VObj [(lit "city", str "Pune")]])].

(** A chat whose first message was answered by [started]. *)
Definition answered_chat : WebCrawler.Chat :=
  WebCrawler.mkChat (VNum (of_N 7)) (str "Greeting")
    (VArr [WebCrawler.msg "user" (str "top incubators");
           WebCrawler.msg "assistant" (str "hello")]).

(** [App] after two clicks on New Chat, a first message sent from the
    second chat and answered, and a click on the first chat in the side
    bar: the chats are [answered_chat] and, after it, the one that is
    still new, which is the active one. *)
Definition two_chats : Shell.App :=
  Shell.run [Shell.NewChat; Shell.NewChat;
             Shell.Send (lit "top incubators"); Shell.Response 0 (Resolves started);
             Shell.Select 1]
            Shell.no_chat.

(** [App] after one click on New Chat. *)
Definition one_chat : Shell.App := Shell.App_newChat Shell.no_chat.

(** The answer to the first message of another chat. *)
Definition started_next : value :=
  VObj [(lit "ok", VBool true); (lit "chat_id", VNum (of_N 8));
        (lit "title", str "Greeting"); (lit "bot", str "hello")].

(** A payload whose [columns] and [rows] are numbers, and its text. *)
Definition numbers_payload : list (jsstring * value) :=
  [(lit "columns", VNum (of_N 1)); (lit "rows", VNum (of_N 1))].

Definition numbers_text : jsstring :=
  lit "{" ++ quoted "columns" ++ lit ":1," ++ quoted "rows" ++ lit ":1}".

(** An answer to a first message whose [chat_id] is 0. *)
Definition started_zero : value :=
  VObj [(lit "ok", VBool true); (lit "chat_id", VNum (of_N 0));
        (lit "bot", str "hello")].

End Samples.

(** * Properties *)

(** ** Strings *)

Module StringFacts.

Import JS.
Local Open Scope N_scope.

Lemma str_eqb_refl (s : jsstring) : str_eqb s s = true.
Proof.
  induction s as [|c s IH]; simpl; [reflexivity|].
  now rewrite N.eqb_refl, IH.
Qed.

Lemma str_eqb_eq (a b : jsstring) : str_eqb a b = true <-> a = b.
Proof.
  split.
  - revert b; induction a as [|x a IH]; intros [|y b]; simpl; try discriminate; auto.
    intros H. apply andb_true_iff in H as [Hx Hr].
    apply N.eqb_eq in Hx. subst. f_equal. auto.
  - intros ->. apply str_eqb_refl.
Qed.

Lemma trim_start_suffix (s : jsstring) :
  exists ws, s = ws ++ trim_start s /\ forallb is_white_space ws = true.
Proof.
  induction s as [|c s [ws [E F]]]; simpl.
  - exists []; auto.
  - destruct (is_white_space c) eqn:Hc.
    + exists (c :: ws). simpl. rewrite Hc, F. split; [f_equal; exact E | reflexivity].
    + exists []. auto.
Qed.

Lemma trim_start_head (s : jsstring) c r :
  trim_start s = c :: r -> is_white_space c = false.
Proof.
  induction s as [|x s IH]; simpl; [discriminate|].
  destruct (is_white_space x) eqn:Hx; [exact IH|].
  intros E. injection E as -> _. exact Hx.
Qed.

Lemma trim_start_keeps_last (s : jsstring) c :
  is_white_space c = false -> exists s', trim_start (s ++ [c]) = s' ++ [c].
Proof.
  intros Hc. induction s as [|x s [s' IH]]; simpl.
  - rewrite Hc. now exists [].
  - destruct (is_white_space x).
    + now exists s'.
    + now exists (x :: s).
Qed.

(** The first unit of a trimmed string is not white space. *)
Lemma trim_head (s : jsstring) c r :
  trim s = c :: r -> is_white_space c = false.
Proof.
  unfold trim. destruct (trim_start s) as [|x s1] eqn:E1.
  - simpl. discriminate.
  - pose proof (trim_start_head s x s1 E1) as Hx.
    destruct (trim_start_keeps_last (rev s1) x Hx) as [s' E2].
    simpl rev at 2. rewrite E2, rev_app_distr. simpl.
    intros E. now injection E as <- _.
Qed.

End StringFacts.

(** ** [JSON.parse] *)

Module JSONFacts.

Import JS JSON.
Local Open Scope N_scope.

Lemma skip_ws_le (s : jsstring) : (length (skip_ws s) <= length s)%nat.
Proof.
  induction s as [|c r IH]; simpl; [lia|].
  destruct (is_json_ws c); simpl; lia.
Qed.

Lemma skip_ws_cons_le (s r : jsstring) (c : N) :
  skip_ws s = c :: r -> (S (length r) <= length s)%nat.
Proof. intros E. pose proof (skip_ws_le s) as H. rewrite E in H. exact H. Qed.

Lemma parse_chars_le (s acc : jsstring) (k r : jsstring) :
  parse_chars s acc = POk k r -> (length r <= length s)%nat.
Proof.
  assert (H : forall n s acc, (length s <= n)%nat ->
                parse_chars s acc = POk k r -> (length r <= length s)%nat).
  { clear s acc. induction n as [|n IH]; intros s acc Hn.
    - destruct s; [discriminate | simpl in Hn; lia].
    - destruct s as [|c s1]; [discriminate|]. simpl in Hn |- *.
      destruct (c =? 34). { intros [= _ <-]. lia. }
      destruct (c =? 92).
      + destruct s1 as [|e s2]; [discriminate|].
        destruct (e =? 117).
        * destruct s2 as [|h1 [|h2 [|h3 [|h4 s3]]]]; try discriminate.
          destruct (hex4 h1 h2 h3 h4); [|discriminate].
          intros E. apply IH in E; simpl in *; lia.
        * destruct (unescape e); [|discriminate].
          intros E. apply IH in E; simpl in *; lia.
      + destruct (c <? 32); [discriminate|].
        intros E. apply IH in E; simpl in *; lia. }
  apply (H (length s)). lia.
Qed.

Lemma take_digits_le (s ds rest : jsstring) :
  take_digits s = (ds, rest) -> (length rest <= length s)%nat.
Proof.
  revert ds rest. induction s as [|c r IH]; simpl; intros ds rest.
  - intros [= _ <-]. simpl. lia.
  - destruct (is_digit c).
    + destruct (take_digits r) as [ds' rest'] eqn:E. intros [= _ <-].
      specialize (IH ds' rest' eq_refl). lia.
    + intros [= _ <-]. simpl. lia.
Qed.

Lemma strip_prefix_le (p s r : jsstring) :
  strip_prefix p s = Some r -> (length r <= length s)%nat.
Proof.
  revert s. induction p as [|x p IH]; intros [|y s]; simpl; try discriminate.
  - intros [= <-]. simpl. lia.
  - intros [= <-]. simpl. lia.
  - destruct (x =? y); [|discriminate]. intros E. apply IH in E. lia.
Qed.

(** A number literal yields a number, and leaves no more than it was given. *)
Lemma parse_number_spec (s r : jsstring) (v : value) :
  parse_number s = POk v r ->
  (exists n, v = VNum n) /\ (length r <= length s)%nat.
Proof.
  unfold parse_number.
  destruct (match s with
            | [] => (false, s)
            | c :: r0 => if c =? 45 then (true, r0) else (false, s)
            end) as [neg s1] eqn:E1.
  assert (L1 : (length s1 <= length s)%nat).
  { destruct s as [|c r0]; [injection E1 as _ <-; lia|].
    destruct (c =? 45); injection E1 as _ <-; simpl; lia. }
  destruct (take_digits s1) as [ints s2] eqn:E2.
  pose proof (take_digits_le s1 _ _ E2) as L2.
  destruct ints as [|d more]; [discriminate|].
  destruct ((d =? 48) && negb match more with [] => true | _ :: _ => false end);
    [discriminate|].
  destruct (match s2 with
            | [] => Some ([], s2)
            | c :: r0 =>
                if c =? 46
                then let '(fs, s3) := take_digits r0 in
                     match fs with [] => None | _ :: _ => Some (fs, s3) end
                else Some ([], s2)
            end) as [[fs s3]|] eqn:E3; [|discriminate].
  assert (L3 : (length s3 <= length s2)%nat).
  { destruct s2 as [|c r0]; [injection E3 as _ <-; lia|].
    destruct (c =? 46).
    - destruct (take_digits r0) as [fs' s3'] eqn:E4.
      pose proof (take_digits_le r0 _ _ E4) as L4.
      destruct fs'; [discriminate|]. injection E3 as _ <-. simpl. lia.
    - injection E3 as _ <-. lia. }
  match goal with
  | |- match ?x with _ => _ end = _ -> _ => destruct x as [[e s4]|] eqn:E5
  end; [|discriminate].
  assert (L5 : (length s4 <= length s3)%nat).
  { destruct s3 as [|c r0]; [injection E5 as _ <-; lia|].
    destruct ((c =? 101) || (c =? 69)).
    - destruct (match r0 with
                | [] => (false, r0)
                | g :: r' => if g =? 45 then (true, r')
                             else if g =? 43 then (false, r') else (false, r0)
                end) as [eneg r1] eqn:E6.
      assert (L6 : (length r1 <= length r0)%nat).
      { destruct r0 as [|g r']; [injection E6 as _ <-; lia|].
        destruct (g =? 45); [injection E6 as _ <-; simpl; lia|].
        destruct (g =? 43); injection E6 as _ <-; simpl; lia. }
      destruct (take_digits r1) as [es s4'] eqn:E7.
      pose proof (take_digits_le r1 _ _ E7) as L7.
      destruct es; [discriminate|]. injection E5 as _ <-. simpl. lia.
    - injection E5 as _ <-. lia. }
  intros [= <- <-]. split; [eauto | lia].
Qed.

Lemma parse_chars_fuel (s acc : jsstring) : parse_chars s acc <> PFuel.
Proof.
  assert (H : forall n s acc, (length s <= n)%nat -> parse_chars s acc <> PFuel).
  { clear s acc. induction n as [|n IH]; intros s acc Hn.
    - destruct s; [discriminate | simpl in Hn; lia].
    - destruct s as [|c s1]; [discriminate|]. simpl in Hn |- *.
      destruct (c =? 34); [discriminate|].
      destruct (c =? 92).
      + destruct s1 as [|e s2]; [discriminate|].
        destruct (e =? 117).
        * destruct s2 as [|h1 [|h2 [|h3 [|h4 s3]]]]; try discriminate.
          destruct (hex4 h1 h2 h3 h4); [|discriminate].
          apply IH; simpl in *; lia.
        * destruct (unescape e); [|discriminate]. apply IH; simpl in *; lia.
      + destruct (c <? 32); [discriminate|]. apply IH; simpl in *; lia. }
  apply (H (length s)). lia.
Qed.

Lemma parse_number_fuel (s : jsstring) : parse_number s <> PFuel.
Proof.
  unfold parse_number.
  repeat match goal with
         | |- context [let '(_, _) := ?x in _] => destruct x
         | |- context [match ?x with _ => _ end] => destruct x
         end; discriminate.
Qed.

#[local] Arguments strip_prefix : simpl never.
#[local] Arguments lit : simpl never.
#[local] Arguments parse_number : simpl never.
#[local] Arguments parse_chars : simpl never.
#[local] Arguments skip_ws : simpl never.

(** The three parsers leave no more than they were given; the elements
    of an array make an array, the members of an object an object. *)
Lemma parse_le (f : nat) :
  (forall s v r, parse_value f s = POk v r -> (length r <= length s)%nat)
  /\ (forall s acc v r, parse_elements f s acc = POk v r ->
        (length r <= length s)%nat /\ exists l, v = VArr l)
  /\ (forall s acc v r, parse_members f s acc = POk v r ->
        (length r <= length s)%nat /\ exists l, v = VObj l).
Proof.
  induction f as [|f [IHv [IHe IHm]]].
  { repeat split; intros; discriminate. }
  split; [|split].
  - intros s v r. simpl.
    destruct (skip_ws s) as [|c r0] eqn:Es; [discriminate|].
    pose proof (skip_ws_cons_le s _ _ Es) as L0.
    destruct (c =? 123).
    { destruct (skip_ws r0) as [|c2 r2] eqn:E2; [discriminate|].
      pose proof (skip_ws_cons_le r0 _ _ E2) as L2.
      destruct (c2 =? 125); [intros [= _ <-]; lia|].
      intros E. apply IHm in E as [E _]. lia. }
    destruct (c =? 91).
    { destruct (skip_ws r0) as [|c2 r2] eqn:E2; [discriminate|].
      pose proof (skip_ws_cons_le r0 _ _ E2) as L2.
      destruct (c2 =? 93); [intros [= _ <-]; lia|].
      intros E. apply IHe in E as [E _]. lia. }
    destruct (c =? 34).
    { destruct (parse_chars r0 []) as [k r1| |] eqn:E2; try discriminate.
      apply parse_chars_le in E2. intros [= _ <-]. lia. }
    destruct ((c =? 45) || is_digit c).
    { intros E. apply parse_number_spec in E as [_ E]. simpl in E. lia. }
    destruct (strip_prefix (lit "true") (c :: r0)) as [r1|] eqn:E1.
    { apply strip_prefix_le in E1. intros [= _ <-]. simpl in E1. lia. }
    destruct (strip_prefix (lit "false") (c :: r0)) as [r2|] eqn:E2.
    { apply strip_prefix_le in E2. intros [= _ <-]. simpl in E2. lia. }
    destruct (strip_prefix (lit "null") (c :: r0)) as [r3|] eqn:E3; [|discriminate].
    apply strip_prefix_le in E3. intros [= _ <-]. simpl in E3. lia.
  - intros s acc v r. simpl.
    destruct (parse_value f s) as [x r1| |] eqn:E1; try discriminate.
    apply IHv in E1.
    destruct (skip_ws r1) as [|c r2] eqn:E2; [discriminate|].
    pose proof (skip_ws_cons_le r1 _ _ E2) as L2.
    destruct (c =? 44).
    { intros E. apply IHe in E as [E X]. split; [lia | exact X]. }
    destruct (c =? 93); [|discriminate].
    intros [= <- <-]. split; [lia | eauto].
  - intros s acc v r. simpl.
    destruct (skip_ws s) as [|c r0] eqn:Es; [discriminate|].
    pose proof (skip_ws_cons_le s _ _ Es) as L0.
    destruct (c =? 34); [|discriminate].
    destruct (parse_chars r0 []) as [k r1| |] eqn:E1; try discriminate.
    apply parse_chars_le in E1.
    destruct (skip_ws r1) as [|c1 r2] eqn:E2; [discriminate|].
    pose proof (skip_ws_cons_le r1 _ _ E2) as L2.
    destruct (c1 =? 58); [|discriminate].
    destruct (parse_value f r2) as [x r3| |] eqn:E3; try discriminate.
    apply IHv in E3.
    destruct (skip_ws r3) as [|c3 r4] eqn:E4; [discriminate|].
    pose proof (skip_ws_cons_le r3 _ _ E4) as L4.
    destruct (c3 =? 44).
    { intros E. apply IHm in E as [E X]. split; [lia | exact X]. }
    destruct (c3 =? 125); [|discriminate].
    intros [= <- <-]. split; [lia | eauto].
Qed.

(** The budget [parse] gives is never used up: twice the length of the
    input, and one more step inside an array or an object. *)
Lemma parse_fuel (f : nat) :
  (forall s, (2 * length s < f)%nat -> parse_value f s <> PFuel)
  /\ (forall s acc, (2 * length s + 1 < f)%nat -> parse_elements f s acc <> PFuel)
  /\ (forall s acc, (2 * length s + 1 < f)%nat -> parse_members f s acc <> PFuel).
Proof.
  induction f as [|f [IHv [IHe IHm]]].
  { repeat split; intros; lia. }
  destruct (parse_le f) as [Lv _].
  split; [|split].
  - intros s Hf. simpl.
    destruct (skip_ws s) as [|c r0] eqn:Es; [discriminate|].
    pose proof (skip_ws_cons_le s _ _ Es) as L0.
    destruct (c =? 123).
    { destruct (skip_ws r0) as [|c2 r2] eqn:E2; [discriminate|].
      destruct (c2 =? 125); [discriminate|]. apply IHm. lia. }
    destruct (c =? 91).
    { destruct (skip_ws r0) as [|c2 r2] eqn:E2; [discriminate|].
      destruct (c2 =? 93); [discriminate|]. apply IHe. lia. }
    destruct (c =? 34).
    { pose proof (parse_chars_fuel r0 []) as H.
      destruct (parse_chars r0 []); try discriminate. now contradiction H. }
    destruct ((c =? 45) || is_digit c); [apply parse_number_fuel|].
    destruct (strip_prefix (lit "true") (c :: r0)); [discriminate|].
    destruct (strip_prefix (lit "false") (c :: r0)); [discriminate|].
    destruct (strip_prefix (lit "null") (c :: r0)); discriminate.
  - intros s acc Hf. simpl.
    pose proof (IHv s) as Hv. pose proof (Lv s) as Ls.
    destruct (parse_value f s) as [x r1| |]; [|discriminate|apply Hv; lia].
    specialize (Ls x r1 eq_refl).
    destruct (skip_ws r1) as [|c r2] eqn:E2; [discriminate|].
    pose proof (skip_ws_cons_le r1 _ _ E2) as L2.
    destruct (c =? 44); [apply IHe; lia|].
    destruct (c =? 93); discriminate.
  - intros s acc Hf. simpl.
    destruct (skip_ws s) as [|c r0] eqn:Es; [discriminate|].
    pose proof (skip_ws_cons_le s _ _ Es) as L0.
    destruct (c =? 34); [|discriminate].
    pose proof (parse_chars_fuel r0 []) as Hc.
    destruct (parse_chars r0 []) as [k r1| |] eqn:E1;
      [|discriminate|now contradiction Hc].
    apply parse_chars_le in E1.
    destruct (skip_ws r1) as [|c1 r2] eqn:E2; [discriminate|].
    pose proof (skip_ws_cons_le r1 _ _ E2) as L2.
    destruct (c1 =? 58); [|discriminate].
    pose proof (IHv r2) as Hv. pose proof (Lv r2) as Ls.
    destruct (parse_value f r2) as [x r3| |]; [|discriminate|apply Hv; lia].
    specialize (Ls x r3 eq_refl).
    destruct (skip_ws r3) as [|c3 r4] eqn:E4; [discriminate|].
    pose proof (skip_ws_cons_le r3 _ _ E4) as L4.
    destruct (c3 =? 44); [apply IHm; lia|].
    destruct (c3 =? 125); discriminate.
Qed.

(** [parse] answers [None] only on a syntax error. *)
Lemma parse_value_fuel (s : jsstring) :
  parse_value (2 * length s + 2) s <> PFuel.
Proof. apply (proj1 (parse_fuel (2 * length s + 2))). lia. Qed.

(** A text that parses to an object opens with a brace. *)
Lemma parse_value_object (f : nat) (s r : jsstring) (fields : list (jsstring * value)) :
  parse_value f s = POk (VObj fields) r -> exists r0, skip_ws s = 123 :: r0.
Proof.
  destruct f as [|f]; [discriminate|]. simpl.
  destruct (skip_ws s) as [|c r0] eqn:Es; [discriminate|].
  destruct (c =? 123) eqn:Ec.
  { apply N.eqb_eq in Ec. subst. eauto. }
  destruct (c =? 91).
  { destruct (skip_ws r0) as [|c2 r2]; [discriminate|].
    destruct (c2 =? 93); [discriminate|].
    intros E. apply (proj1 (proj2 (parse_le f))) in E as [_ [l E]]. discriminate. }
  destruct (c =? 34).
  { destruct (parse_chars r0 []); discriminate. }
  destruct ((c =? 45) || is_digit c).
  { intros E. apply parse_number_spec in E as [[n E] _]. discriminate. }
  destruct (strip_prefix (lit "true") (c :: r0)); [discriminate|].
  destruct (strip_prefix (lit "false") (c :: r0)); [discriminate|].
  destruct (strip_prefix (lit "null") (c :: r0)); discriminate.
Qed.

Lemma json_ws_is_white_space (c : N) : is_json_ws c = true -> is_white_space c = true.
Proof.
  unfold is_json_ws. intros H.
  repeat (apply orb_true_iff in H as [H|H]);
    apply N.eqb_eq in H; subst; reflexivity.
Qed.

Lemma parse_object_startsWith (t : jsstring) (fields : list (jsstring * value)) :
  parse (trim t) = Some (VObj fields) -> startsWith (trim t) 123 = true.
Proof.
  unfold parse.
  destruct (parse_value (2 * length (trim t) + 2) (trim t)) as [v r| |] eqn:E;
    try discriminate.
  destruct (skip_ws r); [|discriminate]. intros [= ->].
  apply parse_value_object in E as [r0 E].
  destruct (trim t) as [|c rest] eqn:Et; [discriminate|].
  pose proof (StringFacts.trim_head t c rest Et) as Hc.
  change (skip_ws (c :: rest))
    with (if is_json_ws c then skip_ws rest else c :: rest) in E.
  destruct (is_json_ws c) eqn:Hj.
  - apply json_ws_is_white_space in Hj. congruence.
  - injection E as -> _. reflexivity.
Qed.

End JSONFacts.

(** ** Values and effects *)

Module EffFacts.

Import JS Eff.

(** Reading a property of a value that is not [null] does not throw. *)
Lemma prop_field {W} (v : value) (k : string) (w : W) :
  nullish v = false -> prop v k w = (Ok (field v k), w).
Proof.
  unfold prop, field. destruct v; simpl; try discriminate; reflexivity.
Qed.

Lemma and_then_truthy (a b : value) :
  truthy (and_then a b) = truthy a && truthy b.
Proof. unfold and_then. now destruct (truthy a) eqn:E; simpl; [|rewrite E]. Qed.

End EffFacts.

(** ** web_crawler/frontend: [ChatWindow] *)

Module WebCrawlerFacts.

Import JS Eff WebCrawler EffFacts.

Lemma filter_not_thinking_ok (items : list value) (w : World) :
  forallb (fun m => negb (nullish m)) items = true ->
  filter_not_thinking items w = (Ok (filter keep items), w).
Proof.
  induction items as [|m r IH]; simpl; intros H; [reflexivity|].
  apply andb_true_iff in H as [Hm Hr]. apply negb_true_iff in Hm.
  unfold bind. rewrite (prop_field m "text" w Hm), (IH Hr).
  unfold ret, keep. now destruct (strict_eq_str (field m "text") thinking).
Qed.

Lemma removeThinking_ok (chat : Chat) (items : list value) (w : World) :
  shown chat items ->
  removeThinking chat w = (Ok tt, with_messages (VArr (filter keep items)) w).
Proof.
  intros [E F]. unfold removeThinking. rewrite E. simpl.
  unfold bind. now rewrite (filter_not_thinking_ok items w F).
Qed.

(** The placeholder is what the window shows while the request is out. *)
Lemma send_begin_pending
    (chat : Chat) (items : list value) (text : jsstring) (l : bool) (rq : list Request) :
  shown chat items -> trim text <> [] ->
  send_begin chat (mkWorld chat text l rq) =
    (Ok (Some (mkPending text (items ++ [msg "user" (VStr text)]))),
     mkWorld (merge chat
                    (patch_messages (VArr (items ++ [msg "assistant" (VStr thinking)]))))
             [] true
             (rq ++
                [if truthy (id chat)
                 then POST (reply_url chat) (message_body text)
                 else POST start_url (message_body text)])).
Proof.
  intros [E F] Hne. unfold send_begin, bind, read. simpl.
  destruct (trim text) eqn:Ht; [contradiction|].
  unfold appendThinking, bind. rewrite E. simpl.
  destruct chat; simpl in *. reflexivity.
Qed.

Lemma turn_unfold (items : list value) (text : jsstring) (o : outcome) (w : World) :
  shown (store w) items -> loading w = false -> trim text <> [] ->
  turn text o w =
    snd (send_resume (store w) (mkPending text (items ++ [msg "user" (VStr text)])) o
           (mkWorld (merge (store w)
                       (patch_messages (VArr (items ++ [msg "assistant" (VStr thinking)]))))
                    [] true
                    (requests w ++
                       [if truthy (id (store w))
                        then POST (reply_url (store w)) (message_body text)
                        else POST start_url (message_body text)]))).
Proof.
  intros Hs Hl Ht. unfold turn, click_send, type_text. rewrite Hl. simpl.
  rewrite Hl. unfold send, bind.
  now rewrite (send_begin_pending (store w) items text false (requests w) Hs Ht).
Qed.

#[local] Arguments lit : simpl never.
#[local] Arguments to_string : simpl never.
#[local] Arguments prop : simpl never.
#[local] Arguments firstn : simpl never.

Lemma on_error_commits
    (chat : Chat) (items optimistic : list value) (text : jsstring)
    (e : exn) (o : outcome) (w : World) :
  shown chat items ->
  commits chat optimistic o
    (messages (store (snd (on_error chat (mkPending text optimistic) e w)))).
Proof.
  intros Hs. unfold on_error, bind.
  rewrite (removeThinking_ok chat items w Hs). simpl.
  apply commit_caught.
Qed.

(** The chat a guarded body leaves: its own on a normal end, the
    handler's when it threw; [finally] only resets [loading]. *)
Lemma guarded_store
    (body : M World unit) (handler : exn -> M World unit) (w : World) :
  store (snd (finally (try_catch body handler) (setLoading false) w)) =
    match body w with
    | (Ok _, w1) => store w1
    | (Throw e, w1) => store (snd (handler e w1))
    end.
Proof.
  unfold finally, try_catch.
  destruct (body w) as [[u|e] w1]; [reflexivity|].
  now destruct (handler e w1) as [r w2].
Qed.

(** Whatever comes back, the turn leaves one of the lists of [commits]. *)
Lemma send_resume_commits
    (chat : Chat) (items optimistic : list value) (text : jsstring)
    (o : outcome) (w : World) :
  shown chat items ->
  commits chat optimistic o
    (messages (store (snd (send_resume chat (mkPending text optimistic) o w)))).
Proof.
  intros Hs.
  pose proof (fun e w1 => on_error_commits chat items optimistic text e o w1 Hs) as Herr.
  unfold send_resume. rewrite guarded_store.
  destruct o as [data|e].
  2:{ destruct (truthy (id chat)); unfold reply_chat, start_chat, bind, await, throw;
      apply Herr. }
  destruct (nullish data) eqn:Hn.
  { destruct (truthy (id chat));
      unfold reply_chat, start_chat, bind, await, ret;
      rewrite (removeThinking_ok chat items w Hs);
      destruct data; try discriminate Hn; unfold prop; cbn [get]; unfold throw;
      apply Herr. }
  destruct (truthy (id chat)) eqn:Hid.
  - unfold reply_chat, bind, await, ret.
    rewrite (removeThinking_ok chat items w Hs).
    rewrite (prop_field data "ok" _ Hn).
    destruct (truthy (field data "ok")) eqn:Hok.
    + rewrite (prop_field data "messages" _ Hn).
      destruct (truthy (field data "messages")) eqn:Hm.
      * destruct (field data "messages") as [| | | |s|history|] eqn:Em;
          try (unfold spread, throw; apply Herr).
        -- unfold spread, ret. rewrite !(prop_field data _ _ Hn), and_then_truthy.
           simpl. apply (commit_reply_history chat optimistic data (code_points s) Hid Hok).
           { now rewrite Em. }
           right. exists s. auto.
        -- unfold spread, ret. rewrite !(prop_field data _ _ Hn), and_then_truthy.
           simpl. apply (commit_reply_history chat optimistic data history Hid Hok).
           { now rewrite Em. }
           left. exact Em.
      * rewrite !(prop_field data _ _ Hn), and_then_truthy. simpl.
        apply (commit_reply_fallback chat optimistic data Hid Hok Hm).
    + rewrite (prop_field data "error" _ Hn). simpl.
      apply (commit_not_ok chat optimistic data _ Hok).
  - unfold start_chat, bind, await, ret.
    rewrite (removeThinking_ok chat items w Hs).
    rewrite (prop_field data "ok" _ Hn).
    destruct (truthy (field data "ok")) eqn:Hok.
    + rewrite !(prop_field data _ _ Hn). simpl. rewrite (prop_field data "bot" _ Hn).
      destruct (truthy (field data "messages")) eqn:Hm; simpl.
      * unfold or_else. rewrite Hm.
        apply (commit_start_history chat optimistic data Hid Hok Hm).
      * pose proof (commit_start_bot chat optimistic data Hid Hok Hm) as C.
        unfold or_else. rewrite Hm.
        destruct (truthy (field data "bot")); simpl.
        -- exact C.
        -- now rewrite app_nil_r in C.
    + rewrite (prop_field data "error" _ Hn). simpl.
      apply (commit_not_ok chat optimistic data _ Hok).
Qed.

Lemma turn_commits (items : list value) (text : jsstring) (o : outcome) (w : World) :
  shown (store w) items -> loading w = false -> trim text <> [] ->
  commits (store w) (items ++ [msg "user" (VStr text)]) o
          (messages (store (turn text o w))).
Proof.
  intros Hs Hl Ht. rewrite (turn_unfold items text o w Hs Hl Ht).
  apply (send_resume_commits (store w) items _ text o _ Hs).
Qed.

(** [updateChat(idx, patch)] of [App.jsx] merges the patch into the chat
    at [idx] and leaves the others: it is the [updateChat] a window bound
    to [idx] works with. *)
Lemma App_updateChat_nth (idx : nat) (patch : Patch) (chats : list Chat) (d : Chat) :
  (idx < length chats)%nat ->
  nth idx (App_updateChat idx patch chats) d = merge (nth idx chats d) patch
  /\ forall j, j <> idx -> nth j (App_updateChat idx patch chats) d = nth j chats d.
Proof.
  revert idx. induction chats as [|c r IH]; intros idx Hlt; simpl in Hlt; [lia|].
  destruct idx as [|i]; simpl.
  - split; [reflexivity|]. intros [|j] Hj; [contradiction | reflexivity].
  - destruct (IH i) as [E F]; [lia|]. split; [exact E|].
    intros [|j] Hj; [reflexivity|]. apply F. congruence.
Qed.

(** The address of a reply carries the id as a template literal prints it. *)
Example reply_url_sample :
  reply_url (store Samples.open_chat) = lit "http://localhost:8000/chat/7/reply".
Proof. vm_compute. reflexivity. Qed.

(** *** The id of a chat *)

Section Steady.

Variable sendable : Request -> Prop.
Variable c0 : value.

Lemma steady_here (w : World) :
  id (store w) = c0 ->
  id (store w) = c0
  /\ exists sent, requests w = requests w ++ sent /\ Forall sendable sent.
Proof. intros H. split; [exact H|]. exists []. now rewrite app_nil_r. Qed.

Lemma steady_ret {A} (a : A) : steady sendable c0 (ret a).
Proof. intros w. apply steady_here. Qed.

Lemma steady_throw {A} (e : exn) : steady sendable c0 (@throw World A e).
Proof. intros w. apply steady_here. Qed.

Lemma steady_read {A} (f : World -> A) : steady sendable c0 (read f).
Proof. intros w. apply steady_here. Qed.

Lemma steady_prop (v : value) (k : string) : steady sendable c0 (prop v k).
Proof.
  unfold prop. destruct (get v (lit k)); [apply steady_ret | apply steady_throw].
Qed.

Lemma steady_await (o : outcome) : steady sendable c0 (await o).
Proof. destruct o; [apply steady_ret | apply steady_throw]. Qed.

Lemma steady_bind {A B} (m : M World A) (k : A -> M World B) :
  steady sendable c0 m -> (forall a, steady sendable c0 (k a)) -> steady sendable c0 (bind m k).
Proof.
  intros Hm Hk w Hw. unfold bind.
  destruct (Hm w Hw) as [Hi [sent [Hr Hf]]].
  destruct (m w) as [[a|e] w1]; simpl in *.
  - destruct (Hk a w1 Hi) as [Hi2 [sent2 [Hr2 Hf2]]].
    split; [exact Hi2|]. exists (sent ++ sent2).
    rewrite Hr2, Hr, app_assoc. split; [reflexivity | now apply Forall_app].
  - split; [exact Hi|]. now exists sent.
Qed.

Lemma steady_try_catch {A} (body : M World A) (handler : exn -> M World A) :
  steady sendable c0 body -> (forall e, steady sendable c0 (handler e)) ->
  steady sendable c0 (try_catch body handler).
Proof.
  intros Hm Hk w Hw. unfold try_catch.
  destruct (Hm w Hw) as [Hi [sent [Hr Hf]]].
  destruct (body w) as [[a|e] w1]; simpl in *.
  - split; [exact Hi|]. now exists sent.
  - destruct (Hk e w1 Hi) as [Hi2 [sent2 [Hr2 Hf2]]].
    split; [exact Hi2|]. exists (sent ++ sent2).
    rewrite Hr2, Hr, app_assoc. split; [reflexivity | now apply Forall_app].
Qed.

Lemma steady_finally {A} (body : M World A) (fin : M World unit) :
  steady sendable c0 body -> steady sendable c0 fin -> steady sendable c0 (finally body fin).
Proof.
  intros Hm Hk w Hw. unfold finally.
  destruct (Hm w Hw) as [Hi [sent [Hr Hf]]].
  destruct (body w) as [r w1]; simpl in *.
  destruct (Hk w1 Hi) as [Hi2 [sent2 [Hr2 Hf2]]].
  destruct (fin w1) as [[u|e] w2]; simpl in *;
    (split; [exact Hi2|]; exists (sent ++ sent2);
     rewrite Hr2, Hr, app_assoc; split; [reflexivity | now apply Forall_app]).
Qed.

Lemma steady_updateChat (p : Patch) : set_id p = None -> steady sendable c0 (updateChat p).
Proof.
  intros Hp w Hw. unfold updateChat, modify, merge. simpl. rewrite Hp.
  now apply (steady_here w).
Qed.

Lemma steady_setInput (s : jsstring) : steady sendable c0 (setInput s).
Proof. intros w Hw. now apply (steady_here w). Qed.

Lemma steady_setLoading (b : bool) : steady sendable c0 (setLoading b).
Proof. intros w Hw. now apply (steady_here w). Qed.

Lemma steady_fetch (r : Request) : sendable r -> steady sendable c0 (fetch r).
Proof.
  intros Hr w Hw. split; [exact Hw|]. exists [r]. split; [reflexivity|].
  now constructor.
Qed.

Lemma steady_spread (v : value) (what : string) : steady sendable c0 (spread v what).
Proof. destruct v; simpl; try apply steady_throw; apply steady_ret. Qed.

Lemma steady_filter (items : list value) : steady sendable c0 (filter_not_thinking items).
Proof.
  induction items as [|m r IH]; simpl; [apply steady_ret|].
  apply steady_bind; [apply steady_prop|]. intros t.
  apply steady_bind; [exact IH|]. intros r'. apply steady_ret.
Qed.

Lemma steady_removeThinking (chat : Chat) : steady sendable c0 (removeThinking chat).
Proof.
  unfold removeThinking.
  destruct (or_else (messages chat) (VArr [])); try apply steady_throw.
  apply steady_bind; [apply steady_filter|]. intros msgs.
  now apply steady_updateChat.
Qed.

Lemma steady_appendThinking (chat : Chat) : steady sendable c0 (appendThinking chat).
Proof.
  unfold appendThinking.
  apply steady_bind; [apply steady_spread|]. intros items.
  now apply steady_updateChat.
Qed.

Lemma steady_on_error (chat : Chat) (p : Pending) (e : exn) :
  steady sendable c0 (on_error chat p e).
Proof.
  unfold on_error. apply steady_bind; [apply steady_removeThinking|].
  intros _. now apply steady_updateChat.
Qed.

Lemma steady_reply_chat (chat : Chat) (p : Pending) (o : outcome) :
  steady sendable c0 (reply_chat chat p o).
Proof.
  unfold reply_chat.
  repeat first
    [ apply steady_bind; [ first [ apply steady_await | apply steady_removeThinking
                                 | apply steady_prop | apply steady_spread ] | intros ? ]
    | match goal with |- steady _ _ (if ?b then _ else _) => destruct b end
    | now apply steady_updateChat ].
Qed.

Lemma steady_send_begin (chat : Chat) :
  (forall text, sendable (if truthy (id chat)
                          then POST (reply_url chat) (message_body text)
                          else POST start_url (message_body text))) ->
  steady sendable c0 (send_begin chat).
Proof.
  intros Hreq. unfold send_begin.
  apply steady_bind; [apply steady_read|]. intros current.
  destruct (trim current); [apply steady_ret|].
  apply steady_bind; [apply steady_setInput|]. intros _.
  apply steady_bind; [apply steady_spread|]. intros items.
  apply steady_bind; [now apply steady_updateChat|]. intros _.
  apply steady_bind; [apply steady_setLoading|]. intros _.
  apply steady_try_catch.
  - apply steady_bind; [apply steady_appendThinking|]. intros _.
    apply steady_bind; [apply steady_fetch, Hreq|]. intros _. apply steady_ret.
  - intros e. apply steady_finally; [|apply steady_setLoading].
    apply steady_bind; [apply steady_on_error|]. intros _. apply steady_ret.
Qed.

End Steady.

Lemma turn_idle (text : jsstring) (o : outcome) (w : World) :
  loading w = true \/ trim text = [] -> store (turn text o w) = store w.
Proof.
  unfold turn, click_send, type_text. intros [Hl|Ht].
  - now rewrite Hl, Hl.
  - destruct (loading w) eqn:Hl; [now rewrite Hl|]. simpl. rewrite Hl.
    unfold send, send_begin, bind, read. simpl. now rewrite Ht.
Qed.

Lemma user_message_no_placeholder (t : value) : is_placeholder (msg "user" t) = false.
Proof. reflexivity. Qed.

Lemma error_message_no_placeholder (t : jsstring) :
  is_placeholder (msg "assistant" (VStr (lit "Network error: " ++ t))) = false
  /\ is_placeholder (msg "assistant" (VStr (lit "Error: " ++ t))) = false.
Proof. split; reflexivity. Qed.

Lemma table_message_no_placeholder (columns rows : value) :
  is_placeholder (table_message columns rows) = false.
Proof. reflexivity. Qed.

Lemma answer_no_placeholder (t : value) :
  strict_eq_str t thinking = false -> is_placeholder (msg "assistant" t) = false.
Proof.
  intros H. unfold is_placeholder.
  change (field (msg "assistant" t) "text") with t. rewrite H. apply andb_false_r.
Qed.

Lemma code_points_no_placeholder (s : jsstring) :
  forallb (fun m => negb (is_placeholder m)) (code_points s) = true.
Proof.
  assert (H : forall n s, (length s <= n)%nat ->
            forallb (fun m => negb (is_placeholder m)) (code_points s) = true).
  { induction n as [|n IH]; intros [|c [|d r]] Hlen; simpl in *; try reflexivity; try lia.
    destruct (JSON.is_high_surrogate c && JSON.is_low_surrogate d); simpl.
    - apply IH. lia.
    - apply (IH (d :: r)). simpl. lia. }
  apply (H (length s)). lia.
Qed.

(** A turn of a window that stays bound to its chat.  Whatever the
    outcome of the request, success or failure, the placeholder that
    [appendThinking] appended is not in the message list the turn leaves:
    a list that held no placeholder before the turn holds none after it,
    unless the response itself brings one. *)
Theorem thinking_absent_after_turn
    (w : World) (text : jsstring) (o : outcome) (items : list value) :
  shown (store w) items ->
  forallb (fun m => negb (is_placeholder m)) items = true ->
  brings_no_placeholder o ->
  forall final, messages (store (turn text o w)) = VArr final ->
                forallb (fun m => negb (is_placeholder m)) final = true.
Proof.
  intros Hs Hp Hb final.
  destruct (loading w) eqn:Hl.
  { rewrite (turn_idle text o w (or_introl Hl)). destruct Hs as [E _].
    rewrite E. intros [= <-]. exact Hp. }
  destruct (trim text) eqn:Ht.
  { rewrite (turn_idle text o w (or_intror Ht)). destruct Hs as [E _].
    rewrite E. intros [= <-]. exact Hp. }
  assert (Hne : trim text <> []) by (rewrite Ht; discriminate).
  pose proof (turn_commits items text o w Hs Hl Hne) as C.
  assert (Hopt : forallb (fun m => negb (is_placeholder m))
                   (items ++ [msg "user" (VStr text)]) = true).
  { rewrite forallb_app, Hp. reflexivity. }
  intros E. rewrite E in C.
  inversion C as [o' t | data t Hok | data Hid Hok Hm | data Hid Hok Hm
                 | data history Hid Hok Hm Hh | data Hid Hok Hm]; subst.
  - rewrite forallb_app, Hopt. reflexivity.
  - rewrite forallb_app, Hopt. reflexivity.
  - destruct (Hb data eq_refl) as [Hh _]. apply Hh. congruence.
  - destruct (Hb data eq_refl) as [_ [Hbot _]].
    rewrite forallb_app, Hopt.
    destruct (truthy (field data "bot")); [|reflexivity].
    simpl. now rewrite (answer_no_placeholder _ Hbot).
  - destruct (Hb data eq_refl) as [Hh' _].
    rewrite forallb_app.
    assert (Hhist : forallb (fun m => negb (is_placeholder m)) history = true).
    { destruct Hh as [E'|[s [E' ->]]]; [now apply Hh' | apply code_points_no_placeholder]. }
    rewrite Hhist.
    destruct (truthy (field data "columns") && truthy (field data "rows")); reflexivity.
  - destruct (Hb data eq_refl) as [_ [_ Hbot]].
    rewrite forallb_app, Hopt, forallb_app.
    destruct (truthy (field data "bot_text")); simpl;
      [rewrite (answer_no_placeholder _ Hbot)|];
      destruct (truthy (field data "columns") && truthy (field data "rows")); reflexivity.
Qed.

(** C10, as the code has it.  [removeThinking] drops from the list the
    handlers captured every message whose text is the reserved one,
    whatever its role; but what it writes is overwritten by the commit
    that ends the turn.  Unless the turn takes over a history sent by the
    backend, the committed list is the list before the turn, whole, then
    the user's message whatever its text, then what the turn adds. *)
Theorem user_message_survives_turn
    (w : World) (text : jsstring) (o : outcome) (items : list value) :
  shown (store w) items -> loading w = false -> trim text <> [] ->
  without_history o ->
  messages (store (snd (removeThinking (store w) w))) = VArr (filter keep items)
  /\ exists added,
       messages (store (turn text o w)) =
         VArr (items ++ msg "user" (VStr text) :: added).
Proof.
  intros Hs Hl Ht Hh. split.
  { now rewrite (removeThinking_ok (store w) items w Hs). }
  pose proof (turn_commits items text o w Hs Hl Ht) as C.
  inversion C as [o' t | data t Hok | data Hid Hok Hm | data Hid Hok Hm
                 | data history Hid Hok Hm Hx | data Hid Hok Hm]; subst;
    try (rewrite (Hh data eq_refl Hok) in Hm; discriminate Hm);
    rewrite <- app_assoc; eexists; reflexivity.
Qed.

Lemma reply_addressed (chat : Chat) :
  truthy (id chat) = true ->
  forall text,
    addressed_to (id chat)
      (if truthy (id chat)
       then POST (reply_url chat) (message_body text)
       else POST start_url (message_body text)).
Proof. intros H text. rewrite H. reflexivity. Qed.

(** [send] in a chat that has an id is steady. *)
Lemma steady_send (sendable : Request -> Prop) (c0 : value) (chat : Chat) (o : outcome) :
  truthy (id chat) = true ->
  (forall text, sendable (if truthy (id chat)
                          then POST (reply_url chat) (message_body text)
                          else POST start_url (message_body text))) ->
  steady sendable c0 (send chat o).
Proof.
  intros Hid Hreq. unfold send.
  apply steady_bind; [now apply steady_send_begin|].
  intros [p|]; [|apply steady_ret].
  unfold send_resume. rewrite Hid.
  apply steady_finally; [|apply steady_setLoading].
  apply steady_try_catch; [apply steady_reply_chat|]. intros e. apply steady_on_error.
Qed.

(** A turn of a chat that has an id leaves the id alone and sends only
    replies addressed to it. *)
Lemma turn_steady (text : jsstring) (o : outcome) (w : World) :
  truthy (id (store w)) = true ->
  id (store (turn text o w)) = id (store w)
  /\ exists sent, requests (turn text o w) = requests w ++ sent
                  /\ Forall (addressed_to (id (store w))) sent.
Proof.
  intros Hid. unfold turn, click_send, type_text.
  destruct (loading w) eqn:Hl.
  { rewrite Hl. split; [reflexivity|]. exists []. now rewrite app_nil_r. }
  simpl. rewrite Hl.
  apply (steady_send (addressed_to (id (store w))) (id (store w)) (store w) o Hid
           (reply_addressed (store w) Hid)
           (mkWorld (store w) text false (requests w)) eq_refl).
Qed.

(** A turn of a chat without an id changes the id only on a response that
    is [ok], and then to its [chat_id]. *)
Lemma send_resume_start_id (chat : Chat) (p : Pending) (o : outcome) (w : World) :
  truthy (id chat) = false ->
  id (store (snd (send_resume chat p o w))) = id (store w)
  \/ exists data, o = Resolves data /\ truthy (field data "ok") = true
       /\ id (store (snd (send_resume chat p o w))) = field data "chat_id".
Proof.
  intros Hid. unfold send_resume. rewrite guarded_store, Hid.
  set (c0 := id (store w)).
  assert (Herr : forall e w1, id (store w1) = c0 ->
                   id (store (snd (on_error chat p e w1))) = c0).
  { intros e w1 H1. apply (steady_on_error anything c0 chat p e w1 H1). }
  unfold start_chat, bind, await.
  destruct o as [data|e]; [|left; now apply Herr].
  unfold ret.
  pose proof (steady_removeThinking anything c0 chat w eq_refl) as [Hi _].
  destruct (removeThinking chat w) as [[u|e] w1]; simpl in Hi; [|left; now apply Herr].
  destruct (nullish data) eqn:Hn.
  { left. destruct data; try discriminate Hn; unfold prop; cbn [get]; now apply Herr. }
  rewrite (prop_field data "ok" _ Hn).
  destruct (truthy (field data "ok")) eqn:Tok.
  - right. exists data. split; [reflexivity|]. split; [exact Tok|].
    rewrite !(prop_field data _ _ Hn). simpl. rewrite (prop_field data "bot" _ Hn).
    destruct (negb (truthy (field data "messages")) && truthy (field data "bot"));
      reflexivity.
  - left. rewrite (prop_field data "error" _ Hn). simpl. exact Hi.
Qed.

Lemma turn_id_change (text : jsstring) (o : outcome) (w : World) :
  id (store (turn text o w)) <> id (store w) ->
  truthy (id (store w)) = false
  /\ exists data, o = Resolves data /\ truthy (field data "ok") = true
       /\ id (store (turn text o w)) = field data "chat_id".
Proof.
  intros Hne.
  destruct (truthy (id (store w))) eqn:Hid.
  { destruct (turn_steady text o w Hid) as [E _]. contradiction. }
  split; [reflexivity|].
  revert Hne. unfold turn, click_send, type_text.
  destruct (loading w) eqn:Hl; [rewrite Hl; intros H; now contradiction H|].
  simpl. rewrite Hl. unfold send, bind.
  assert (Hreq : forall t, anything (if truthy (id (store w))
                                     then POST (reply_url (store w)) (message_body t)
                                     else POST start_url (message_body t)))
    by (intros; exact I).
  pose proof (steady_send_begin anything (id (store w)) (store w) Hreq
                (mkWorld (store w) text false (requests w)) eq_refl) as [Hi _].
  destruct (send_begin (store w) (mkWorld (store w) text false (requests w)))
    as [[[p|]|e] w1]; simpl in *; try (intros H; now contradiction H).
  destruct (send_resume_start_id (store w) p o w1 Hid) as [E|E].
  - rewrite E, Hi. intros H; now contradiction H.
  - intros _. exact E.
Qed.

(** The first successful turn of a chat without an id gives it the
    [chat_id] of the response. *)
Lemma turn_assigns_id
    (w : World) (text : jsstring) (data : value) (items : list value) :
  shown (store w) items -> loading w = false -> trim text <> [] ->
  truthy (id (store w)) = false ->
  truthy (field data "ok") = true ->
  id (store (turn text (Resolves data) w)) = field data "chat_id".
Proof.
  intros Hs Hl Ht Hid Hok.
  rewrite (turn_unfold items text (Resolves data) w Hs Hl Ht).
  assert (Hn : nullish data = false) by (destruct data; simpl in *; congruence).
  unfold send_resume. rewrite guarded_store, Hid.
  unfold start_chat, bind, await, ret.
  rewrite (removeThinking_ok (store w) items _ Hs).
  rewrite (prop_field data "ok" _ Hn), Hok.
  rewrite !(prop_field data _ _ Hn). simpl. rewrite (prop_field data "bot" _ Hn).
  destruct (negb (truthy (field data "messages")) && truthy (field data "bot"));
    reflexivity.
Qed.

(** C1, as the code has it.  A successful reply that carries a history
    leaves that history as the message list, followed by one assistant
    message holding the stringified table when the response also has
    [columns] and [rows]; without them the list is the history exactly. *)
Theorem reply_history_then_table
    (w : World) (text : jsstring) (data : value) (items history : list value) :
  shown (store w) items -> loading w = false -> trim text <> [] ->
  truthy (id (store w)) = true ->
  truthy (field data "ok") = true ->
  field data "messages" = VArr history ->
  messages (store (turn text (Resolves data) w)) =
    VArr (history ++
          if truthy (field data "columns") && truthy (field data "rows")
          then [table_message (field data "columns") (field data "rows")]
          else []).
Proof.
  intros Hs Hl Ht Hid Hok Hm.
  rewrite (turn_unfold items text (Resolves data) w Hs Hl Ht).
  assert (Hn : nullish data = false) by (destruct data; simpl in *; congruence).
  unfold send_resume, finally, try_catch. rewrite Hid.
  unfold reply_chat, bind, await, ret.
  rewrite (removeThinking_ok (store w) items _ Hs).
  rewrite (prop_field data "ok" _ Hn), Hok.
  rewrite (prop_field data "messages" _ Hn), Hm. simpl.
  rewrite !(prop_field data _ _ Hn). rewrite and_then_truthy. simpl.
  reflexivity.
Qed.

(** A transport failure of the request of [send]: one error message after
    the user's, and no further request. *)
Lemma send_transport_failure
    (w : World) (text : jsstring) (e : exn) (items : list value) :
  shown (store w) items -> loading w = false -> trim text <> [] ->
  messages (store (turn text (Rejects e) w)) =
    VArr (items ++ [msg "user" (VStr text);
                    msg "assistant" (VStr (lit "Network error: " ++ message e))])
  /\ exists r, requests (turn text (Rejects e) w) = requests w ++ [r].
Proof.
  intros Hs Hl Ht. rewrite (turn_unfold items text (Rejects e) w Hs Hl Ht).
  unfold send_resume, finally, try_catch, on_error.
  destruct (truthy (id (store w)));
    unfold reply_chat, start_chat, bind, await, throw;
    rewrite (removeThinking_ok (store w) items _ Hs); simpl;
    (split; [now rewrite <- app_assoc | eexists; reflexivity]).
Qed.

(** The sample chat, its request failing: the user's message, then the
    one error message. *)
Lemma send_transport_failure_witness :
  messages (store (turn (lit "again") (Rejects Samples.failed_to_fetch)
                        Samples.open_chat)) =
    VArr ([msg "user" (Samples.str "top incubators");
           msg "assistant" (Samples.str "Here they are")]
          ++ [msg "user" (VStr (lit "again"));
              msg "assistant"
                  (VStr (lit "Network error: " ++ message Samples.failed_to_fetch))])
  /\ exists r,
       requests (turn (lit "again") (Rejects Samples.failed_to_fetch) Samples.open_chat)
         = requests Samples.open_chat ++ [r].
Proof.
  apply (send_transport_failure Samples.open_chat (lit "again") Samples.failed_to_fetch
           [msg "user" (Samples.str "top incubators");
            msg "assistant" (Samples.str "Here they are")]).
  - split; reflexivity.
  - reflexivity.
  - vm_compute. discriminate.
Defined.

(** C1: the claim fails on a reply that carries a history and a table. *)
Lemma reply_history_not_kept_exactly :
  messages (store (turn (lit "and by city") (Resolves Samples.reply_with_table)
                        Samples.open_chat))
    = VArr (Samples.backend_history
            ++ [msg "assistant" (VStr Samples.table_text)])
  /\ messages (store (turn (lit "and by city") (Resolves Samples.reply_with_table)
                           Samples.open_chat))
     <> VArr Samples.backend_history.
Proof. split; [vm_compute; reflexivity | vm_compute; discriminate]. Qed.

(** A reply with a history and no table leaves the history as it is. *)
Lemma reply_history_then_table_witness :
  messages (store (turn (lit "and by city") (Resolves Samples.reply_history_only)
                        Samples.open_chat))
    = VArr (Samples.backend_history ++ []).
Proof.
  apply (reply_history_then_table Samples.open_chat (lit "and by city")
           Samples.reply_history_only
           [msg "user" (Samples.str "top incubators");
            msg "assistant" (Samples.str "Here they are")]
           Samples.backend_history).
  - split; reflexivity.
  - reflexivity.
  - vm_compute. discriminate.
  - reflexivity.
  - reflexivity.
  - reflexivity.
Defined.

(** The list left by the sample reply holds no placeholder. *)
Lemma thinking_absent_after_turn_witness :
  forallb (fun m => negb (is_placeholder m))
    (Samples.backend_history ++ [msg "assistant" (VStr Samples.table_text)]) = true.
Proof.
  apply (thinking_absent_after_turn Samples.open_chat (lit "and by city")
           (Resolves Samples.reply_with_table)
           [msg "user" (Samples.str "top incubators");
            msg "assistant" (Samples.str "Here they are")]).
  - split; reflexivity.
  - reflexivity.
  - intros data E. injection E as <-. split; [|split; reflexivity].
    intros items E. vm_compute in E. injection E as <-. reflexivity.
  - vm_compute. reflexivity.
Defined.

(** C10: the claim fails on a first message whose text is the reserved
    one: it is still there when the turn is over. *)
Lemma thinking_text_of_user_kept :
  messages (store (turn thinking (Resolves Samples.started) Samples.new_chat))
    = VArr [msg "user" (VStr thinking); msg "assistant" (Samples.str "hello")].
Proof. vm_compute. reflexivity. Qed.

(** The first message of a new chat, its text the reserved one, is kept. *)
Lemma user_message_survives_turn_witness :
  messages (store (snd (removeThinking (store Samples.new_chat) Samples.new_chat)))
    = VArr []
  /\ exists added,
       messages (store (turn thinking (Resolves Samples.started) Samples.new_chat))
         = VArr ([] ++ msg "user" (VStr thinking) :: added).
Proof.
  apply (user_message_survives_turn Samples.new_chat thinking
           (Resolves Samples.started) []).
  - split; reflexivity.
  - reflexivity.
  - vm_compute. discriminate.
  - intros data E. injection E as <-. reflexivity.
Defined.

End WebCrawlerFacts.

(** ** web_crawler/frontend: [ChatMessage] *)

Module ChatMessageFacts.

Import JS ChatMessage.

Lemma assistant_role : strict_eq_str (VStr (lit "assistant")) (lit "assistant") = true.
Proof. reflexivity. Qed.

(** C7: the claim fails on a table whose [columns] and [rows] are empty
    arrays: both are truthy, the message is shown as a table. *)
Lemma empty_table_is_table :
  is_table (VStr (lit "assistant")) (VStr Samples.empty_table_text) = true
  /\ ~ spec_table Samples.empty_table_text.
Proof.
  split; [vm_compute; reflexivity|].
  intros [parsed [columns [rows [E [Ec [_ [Hc _]]]]]]].
  vm_compute in E. injection E as <-.
  vm_compute in Ec. injection Ec as <-. now apply Hc.
Qed.

(** The test of the code.  An assistant message is shown as a table
    exactly when its trimmed text is valid JSON for an object whose
    [columns] and [rows] are both truthy (present, and not [null],
    [false], [0] or the empty string: an empty array counts).  Every
    other text, malformed JSON included, is classified without an error:
    plain, or the dots when it is the reserved text. *)
Lemma table_iff_truthy_columns_and_rows (t : jsstring) :
  (is_table (VStr (lit "assistant")) (VStr t) = true <->
   exists fields,
     JSON.parse (trim t) = Some (VObj fields)
     /\ truthy (lookup (lit "columns") fields) = true
     /\ truthy (lookup (lit "rows") fields) = true)
  /\ (is_table (VStr (lit "assistant")) (VStr t) = false ->
      classify (VStr (lit "assistant")) (VStr t)
        = if str_eqb t WebCrawler.thinking then Thinking else Plain).
Proof.
  split; [split|].
  - unfold is_table, classify.
    destruct (strict_eq_str (VStr t) WebCrawler.thinking); [discriminate|].
    unfold parsed_of. rewrite assistant_role.
    destruct (truthy (VStr t)); [|discriminate]. cbn [andb].
    unfold try_parse.
    destruct (startsWith (trim t) 123 || startsWith (trim t) 91); [|discriminate].
    destruct (JSON.parse (trim t)) as [parsed|]; [|discriminate].
    destruct parsed as [| | | | | |fields]; try discriminate.
    cbn [get].
    destruct (truthy (lookup (lit "columns") fields)) eqn:Hc; [|discriminate].
    destruct (truthy (lookup (lit "rows") fields)) eqn:Hr; [|discriminate].
    intros _. exists fields. auto.
  - intros [fields [E [Hc Hr]]].
    pose proof (JSONFacts.parse_object_startsWith t fields E) as Hs.
    assert (Hth : strict_eq_str (VStr t) WebCrawler.thinking = false).
    { cbn [strict_eq_str]. destruct (str_eqb t WebCrawler.thinking) eqn:Et; [|reflexivity].
      apply StringFacts.str_eqb_eq in Et. subst t. vm_compute in Hs. discriminate. }
    assert (Hne : truthy (VStr t) = true).
    { destruct t; [vm_compute in Hs; discriminate | reflexivity]. }
    unfold is_table, classify. rewrite Hth.
    unfold parsed_of. rewrite assistant_role, Hne. cbn [andb].
    unfold try_parse. rewrite Hs, E. cbn [orb get]. rewrite Hc, Hr.
    cbn [negb orb truthy get]. reflexivity.
  - unfold is_table, classify. cbn [strict_eq_str].
    destruct (str_eqb t WebCrawler.thinking); [reflexivity|].
    destruct (truthy (parsed_of (VStr (lit "assistant")) (VStr t))); [|reflexivity].
    destruct (get (parsed_of (VStr (lit "assistant")) (VStr t)) (lit "columns"));
      [|reflexivity].
    destruct (get (parsed_of (VStr (lit "assistant")) (VStr t)) (lit "rows"));
      [discriminate | reflexivity].
Qed.

(** A table with a column and a row is shown as one. *)
Example table_text_is_table :
  classify (VStr (lit "assistant")) (VStr Samples.table_text)
    = Table (VArr [Samples.str "name"])
            (VArr [VObj [(lit "name", Samples.str "T-Hub")]]).
Proof. vm_compute. reflexivity. Qed.

(** Malformed JSON, and a payload without [rows], are plain text. *)
Example partial_payloads_are_plain :
  classify (VStr (lit "assistant")) (VStr (lit "{not json")) = Plain
  /\ classify (VStr (lit "assistant"))
        (VStr (lit "{" ++ Samples.quoted "columns" ++ lit ":[1]}")) = Plain
  /\ classify (VStr (lit "assistant"))
        (VStr (lit "{" ++ Samples.quoted "columns" ++ lit ":[1],"
               ++ Samples.quoted "rows" ++ lit ":null}")) = Plain.
Proof. repeat split; vm_compute; reflexivity. Qed.

End ChatMessageFacts.

(** ** root/frontend: [App] *)

Module RootAppFacts.

Import JS Eff RootApp EffFacts.

#[local] Arguments lit : simpl never.
#[local] Arguments JSON.stringify : simpl never.

(** After a crawl that succeeded, the crawl state is the one built from
    its response alone, the status message is appended and the chat request
    over that state is sent: the turn goes on. *)
Lemma handleSend_crawled_ok (query : jsstring) (crawlRes : value) (w : World) :
  nullish crawlRes = false ->
  handleSend_crawled query (Resolves crawlRes) w =
    (Ok (state_of crawlRes),
     mkWorld (messages w ++ [mkMessage system (VStr extracted_text)])
             (input w) done (Some (state_of crawlRes)) (clarification w)
             (requests w ++ [chat_request query (state_of crawlRes)])).
Proof.
  intros Hn. unfold handleSend_crawled, bind, await, ret.
  simpl. rewrite !(prop_field crawlRes _ _ Hn). reflexivity.
Qed.

(** C2.  When the chat response has mode [CLARIFICATION_ONLY], the
    clarification installed takes its message from the chat response and
    its options from the allowed metrics of the crawl state installed in
    this same turn, whatever the chat response holds. *)
Theorem clarification_options_from_crawl
    (w : World) (query : jsstring) (crawlRes chatRes : value) :
  nullish crawlRes = false ->
  field chatRes "mode" = VStr (lit "CLARIFICATION_ONLY") ->
  let w' := snd (handleSend query (Resolves crawlRes) (Resolves chatRes) w) in
  exists state,
    crawlState w' = Some state
    /\ allowed_metrics state = or_else (field crawlRes "allowed_metrics") (VArr [])
    /\ clarification w' =
         Some (mkClarification (field chatRes "response") (allowed_metrics state)).
Proof.
  intros Hn Hmode w'. exists (state_of crawlRes). subst w'.
  assert (Hc : nullish chatRes = false)
    by (destruct chatRes; try reflexivity; discriminate Hmode).
  unfold handleSend, bind. simpl.
  rewrite (handleSend_crawled_ok query crawlRes _ Hn).
  unfold handleSend_answered, bind, await, ret.
  rewrite (prop_field chatRes "mode" _ Hc), Hmode.
  change (strict_eq_str (VStr (lit "CLARIFICATION_ONLY")) (lit "CLARIFICATION_ONLY"))
    with true. cbv beta iota.
  rewrite (prop_field chatRes "response" _ Hc). simpl. auto.
Qed.

(** The sample turn: the crawl allows two metrics, the chat asks. *)
Lemma clarification_options_from_crawl_witness :
  exists state,
    crawlState (snd (handleSend (lit "revenue ranking") (Resolves Samples.crawl_full)
                                (Resolves Samples.chat_clarify) initial)) = Some state
    /\ allowed_metrics state =
         or_else (field Samples.crawl_full "allowed_metrics") (VArr [])
    /\ clarification (snd (handleSend (lit "revenue ranking")
                                      (Resolves Samples.crawl_full)
                                      (Resolves Samples.chat_clarify) initial)) =
         Some (mkClarification (field Samples.chat_clarify "response")
                               (allowed_metrics state)).
Proof.
  apply (clarification_options_from_crawl initial (lit "revenue ranking")
           Samples.crawl_full Samples.chat_clarify); reflexivity.
Defined.

(** The options of the sample turn are the two metrics of its crawl. *)
Example clarification_options_sample :
  option_map options
    (clarification (snd (handleSend (lit "revenue ranking") (Resolves Samples.crawl_full)
                                    (Resolves Samples.chat_clarify) initial)))
    = Some (VArr [Samples.str "country"; Samples.str "sector"]).
Proof. vm_compute. reflexivity. Qed.

(** A new turn clears the pending clarification at once, before any
    response. *)
Lemma handleSend_begin_clears (query : jsstring) (w : World) :
  clarification (snd (handleSend_begin query w)) = None.
Proof. reflexivity. Qed.

(** Sending a query leaves the input box empty, whatever comes back. *)
Lemma click_send_clears_input (crawled answered : outcome) (w : World) :
  trim (input w) <> [] -> input (snd (click_send crawled answered w)) = [].
Proof.
  intros Ht. unfold click_send. destruct (trim (input w)); [contradiction|].
  unfold bind, handleSend_begin. simpl.
  destruct crawled as [crawlRes|e]; [|reflexivity].
  destruct (nullish crawlRes) eqn:Hn.
  { destruct crawlRes; try discriminate Hn; reflexivity. }
  rewrite (handleSend_crawled_ok (input w) crawlRes _ Hn). simpl.
  unfold handleSend_answered, bind, await.
  destruct answered as [chatRes|e]; [|reflexivity].
  destruct (nullish chatRes) eqn:Hc.
  { destruct chatRes; try discriminate Hc; reflexivity. }
  unfold ret. rewrite (prop_field chatRes "mode" _ Hc).
  destruct (strict_eq_str (field chatRes "mode") (lit "CLARIFICATION_ONLY"));
    rewrite (prop_field chatRes "response" _ Hc); reflexivity.
Qed.

(** C3, on the code.  The user sends "revenue ranking", the chat asks for
    a clarification, the user picks "country": the input box was emptied
    by the send, so the query of the new turn is " by country"; the
    pending clarification is cleared as the new turn starts. *)
Theorem clarification_select_loses_query :
  let asked := snd (click_send (Resolves Samples.crawl_full)
                               (Resolves Samples.chat_clarify)
                               (Samples.typed "revenue ranking")) in
  let retried := snd (handleClarificationSelect (lit "country")
                        (Rejects Samples.failed_to_fetch)
                        (Rejects Samples.failed_to_fetch) asked) in
  option_map options (clarification asked)
    = Some (VArr [Samples.str "country"; Samples.str "sector"])
  /\ input asked = []
  /\ clarification_query asked (lit "country") = lit " by country"
  /\ clarification_query asked (lit "country") <> lit "revenue ranking by country"
  /\ last (requests retried) (crawl_request []) = crawl_request (lit " by country")
  /\ clarification retried = None.
Proof. vm_compute. repeat split; discriminate. Qed.

(** C6, on the code.  When the crawl request fails, [handleSend] ends as
    a rejected promise: the chat request is not sent, and nothing is
    appended after the user's message; the stage stays at "searching". *)
Theorem crawl_failure_appends_nothing
    (w : World) (query : jsstring) (e : exn) (answered : outcome) :
  handleSend query (Rejects e) answered w =
    (Throw e,
     mkWorld (messages w ++ [mkMessage user (VStr query)]) (input w) searching
             (crawlState w) None (requests w ++ [crawl_request query])).
Proof. reflexivity. Qed.

(** In [App], absent optional fields become empty arrays, and the crawl
    state after a crawl is built from its response alone, whatever it was
    before. *)
Lemma crawl_state_replaced (w : World) (query : jsstring) (crawlRes : value) :
  nullish crawlRes = false ->
  crawlState (snd (handleSend_crawled query (Resolves crawlRes) w))
    = Some (state_of crawlRes).
Proof. intros Hn. now rewrite (handleSend_crawled_ok query crawlRes w Hn). Qed.

Lemma crawl_state_replaced_witness :
  crawlState (snd (handleSend_crawled (lit "revenue ranking")
                     (Resolves Samples.crawl_bare)
                     (Samples.typed "revenue ranking")))
    = Some (state_of Samples.crawl_bare).
Proof.
  apply (crawl_state_replaced (Samples.typed "revenue ranking")
           (lit "revenue ranking") Samples.crawl_bare).
  reflexivity.
Defined.

Example crawl_bare_defaults :
  crawlState (snd (handleSend_crawled [] (Resolves Samples.crawl_bare) initial))
    = Some (mkCrawlState (Samples.str "kx-2") (VArr []) (VArr []) (VArr [])
                         (VBool false)).
Proof. vm_compute. reflexivity. Qed.

End RootAppFacts.

(** ** root/frontend: the session store *)

Module SessionStoreFacts.

Import JS Eff SessionStore.

#[local] Arguments lit : simpl never.
#[local] Arguments JSON.stringify : simpl never.

(** What [handleSend] writes into [session] from a crawl response that is
    an object: three fields as they come, [undefined] when absent;
    [blockedMetrics] is not written. *)
Lemma handleSend_writes
    (fields : list (jsstring * value)) (answered : outcome) (w : World) :
  store (snd (handleSend (Resolves (VObj fields)) answered w)) =
    mkSession (lookup (lit "knowledge_index") fields)
              (lookup (lit "allowed_metrics") fields)
              (blockedMetrics (store w))
              (lookup (lit "dataset_preview") fields)
              (lookup (lit "low_trust_present") fields).
Proof.
  unfold handleSend, bind, read, await, ret, prop. simpl.
  destruct answered as [chatResult|e]; [|reflexivity].
  destruct chatResult; reflexivity.
Qed.

(** The fragment over the session store, which nothing imports: a crawl
    response without [allowed_metrics] and [dataset_preview] leaves
    [undefined] in the session, not an empty array; the chat request is
    sent all the same. *)
Lemma session_absent_metrics_undefined :
  let w := snd (handleSend (Resolves Samples.crawl_bare)
                           (Resolves Samples.chat_answer) initial) in
  allowedMetrics (store w) = VUndef
  /\ datasetPreview (store w) = VUndef
  /\ length (requests w) = 2%nat.
Proof. vm_compute. repeat split. Qed.

(** The same fragment never writes [blockedMetrics]: after a crawl whose
    response blocks a metric, the session still holds the value it had
    before. *)
Lemma session_blocked_metrics_kept
    (fields : list (jsstring * value)) (answered : outcome) (w : World) :
  blockedMetrics (store (snd (handleSend (Resolves (VObj fields)) answered w)))
    = blockedMetrics (store w).
Proof. now rewrite handleSend_writes. Qed.

Example session_blocked_metrics_sample :
  blockedMetrics (store (snd (handleSend (Resolves Samples.crawl_full)
                                         (Resolves Samples.chat_answer) initial)))
    = VArr []
  /\ field Samples.crawl_full "blocked_metrics" = VArr [Samples.str "valuation"].
Proof. vm_compute. split; reflexivity. Qed.

End SessionStoreFacts.

(** ** web_crawler/frontend: what a turn changes and what it leaves *)

Module WindowFacts.

Import JS Eff WebCrawler Window EffFacts.

#[local] Arguments lit : simpl never.
#[local] Arguments to_string : simpl never.
#[local] Arguments JSON.stringify : simpl never.

Section Preserved.

Variable R : World -> World -> Prop.
Hypothesis R_refl : forall w, R w w.
Hypothesis R_trans : forall a b c, R a b -> R b c -> R a c.
Hypothesis R_messages : forall v w, R w (snd (updateChat (patch_messages v) w)).
Hypothesis R_loading : forall b w, R w (snd (setLoading b w)).

Lemma preserves_ret {A} (a : A) : preserves R (ret a).
Proof. intros w. apply R_refl. Qed.

Lemma preserves_throw {A} (e : exn) : preserves R (@throw World A e).
Proof. intros w. apply R_refl. Qed.

Lemma preserves_prop (v : value) (k : string) : preserves R (prop v k).
Proof.
  unfold prop. destruct (get v (lit k)); [apply preserves_ret | apply preserves_throw].
Qed.

Lemma preserves_await (o : outcome) : preserves R (await o).
Proof. destruct o; [apply preserves_ret | apply preserves_throw]. Qed.

Lemma preserves_bind {A B} (m : M World A) (k : A -> M World B) :
  preserves R m -> (forall a, preserves R (k a)) -> preserves R (bind m k).
Proof.
  intros Hm Hk w. unfold bind. specialize (Hm w).
  destruct (m w) as [[a|e] w1]; simpl in *; [|exact Hm].
  apply (R_trans _ _ _ Hm). apply Hk.
Qed.

Lemma preserves_try_catch {A} (body : M World A) (handler : exn -> M World A) :
  preserves R body -> (forall e, preserves R (handler e)) ->
  preserves R (try_catch body handler).
Proof.
  intros Hm Hk w. unfold try_catch. specialize (Hm w).
  destruct (body w) as [[a|e] w1]; simpl in *; [exact Hm|].
  apply (R_trans _ _ _ Hm). apply Hk.
Qed.

Lemma preserves_finally {A} (body : M World A) (fin : M World unit) :
  preserves R body -> preserves R fin -> preserves R (finally body fin).
Proof.
  intros Hm Hk w. unfold finally. specialize (Hm w).
  destruct (body w) as [r w1]; simpl in *. specialize (Hk w1).
  destruct (fin w1) as [[u|e] w2]; simpl in *; apply (R_trans _ _ _ Hm Hk).
Qed.

Lemma preserves_spread (v : value) (what : string) : preserves R (spread v what).
Proof. destruct v; simpl; try apply preserves_throw; apply preserves_ret. Qed.

Lemma preserves_filter (items : list value) : preserves R (filter_not_thinking items).
Proof.
  induction items as [|m r IH]; simpl; [apply preserves_ret|].
  apply preserves_bind; [apply preserves_prop|]. intros t.
  apply preserves_bind; [exact IH|]. intros r'. apply preserves_ret.
Qed.

Lemma preserves_removeThinking (chat : Chat) : preserves R (removeThinking chat).
Proof.
  unfold removeThinking.
  destruct (or_else (messages chat) (VArr [])); try apply preserves_throw.
  apply preserves_bind; [apply preserves_filter|]. intros msgs w. apply R_messages.
Qed.

Lemma preserves_appendThinking (chat : Chat) : preserves R (appendThinking chat).
Proof.
  unfold appendThinking.
  apply preserves_bind; [apply preserves_spread|]. intros items w. apply R_messages.
Qed.

Lemma preserves_on_error (chat : Chat) (p : Pending) (e : exn) :
  preserves R (on_error chat p e).
Proof.
  unfold on_error. apply preserves_bind; [apply preserves_removeThinking|].
  intros _ w. apply R_messages.
Qed.

Lemma preserves_reply_chat (chat : Chat) (p : Pending) (o : outcome) :
  preserves R (reply_chat chat p o).
Proof.
  unfold reply_chat.
  repeat first
    [ apply preserves_bind;
      [ first [ apply preserves_await | apply preserves_removeThinking
              | apply preserves_prop | apply preserves_spread ] | intros ? ]
    | match goal with |- preserves _ (if ?b then _ else _) => destruct b end
    | (intros w; apply R_messages) ].
Qed.

(** The rest of a reply, with its [catch] and [finally]. *)
Lemma preserves_reply (chat : Chat) (p : Pending) (o : outcome) :
  truthy (id chat) = true -> preserves R (send_resume chat p o).
Proof.
  intros Hid. unfold send_resume. rewrite Hid.
  apply preserves_finally; [|intros w; apply R_loading].
  apply preserves_try_catch; [apply preserves_reply_chat | apply preserves_on_error].
Qed.

Hypothesis R_patch : forall p w, R w (snd (updateChat p w)).

Lemma preserves_start_chat (chat : Chat) (p : Pending) (o : outcome) :
  preserves R (start_chat chat p o).
Proof.
  unfold start_chat.
  repeat first
    [ apply preserves_bind;
      [ first [ apply preserves_await | apply preserves_removeThinking
              | apply preserves_prop | (intros w; apply R_patch) ] | intros ? ]
    | match goal with |- preserves _ (if ?b then _ else _) => destruct b end
    | apply preserves_ret
    | (intros w; apply R_patch) ].
Qed.

(** The rest of [send] from the response on, whichever branch it takes. *)
Lemma preserves_send_resume (chat : Chat) (p : Pending) (o : outcome) :
  preserves R (send_resume chat p o).
Proof.
  unfold send_resume.
  apply preserves_finally; [|intros w; apply R_loading].
  apply preserves_try_catch; [|apply preserves_on_error].
  destruct (truthy (id chat)); [apply preserves_reply_chat | apply preserves_start_chat].
Qed.

End Preserved.

Section Preserved_begin.

Variable R : World -> World -> Prop.
Hypothesis R_refl : forall w, R w w.
Hypothesis R_trans : forall a b c, R a b -> R b c -> R a c.
Hypothesis R_messages : forall v w, R w (snd (updateChat (patch_messages v) w)).
Hypothesis R_loading : forall b w, R w (snd (setLoading b w)).
Hypothesis R_input : forall s w, R w (snd (setInput s w)).
Hypothesis R_fetch : forall r w, R w (snd (fetch r w)).

Lemma preserves_send_begin (chat : Chat) : preserves R (send_begin chat).
Proof.
  unfold send_begin.
  apply (preserves_bind R R_trans); [intros w; apply R_refl|]. intros current.
  destruct (trim current); [apply (preserves_ret R R_refl)|].
  apply (preserves_bind R R_trans); [intros w; apply R_input|]. intros _.
  apply (preserves_bind R R_trans); [apply (preserves_spread R R_refl)|]. intros items.
  apply (preserves_bind R R_trans); [intros w; apply R_messages|]. intros _.
  apply (preserves_bind R R_trans); [intros w; apply R_loading|]. intros _.
  apply (preserves_try_catch R R_trans).
  - apply (preserves_bind R R_trans);
      [apply (preserves_appendThinking R R_refl R_trans R_messages)|]. intros _.
    apply (preserves_bind R R_trans); [intros w; apply R_fetch|]. intros _.
    apply (preserves_ret R R_refl).
  - intros e. apply (preserves_finally R R_trans); [|intros w; apply R_loading].
    apply (preserves_bind R R_trans);
      [apply (preserves_on_error R R_refl R_trans R_messages)|]. intros _.
    apply (preserves_ret R R_refl).
Qed.

(** [send] in a chat that has an id. *)
Lemma preserves_send_reply (chat : Chat) (o : outcome) :
  truthy (id chat) = true -> preserves R (send chat o).
Proof.
  intros Hid. unfold send.
  apply (preserves_bind R R_trans); [apply preserves_send_begin|].
  intros [p|]; [|apply (preserves_ret R R_refl)].
  now apply (preserves_reply R R_refl R_trans R_messages R_loading).
Qed.

End Preserved_begin.

(** A reply turn leaves the id and the title of the chat as they are,
    whatever comes back and whatever the chat holds. *)
Theorem reply_keeps_heading (w : World) (text : jsstring) (o : outcome) :
  truthy (id (store w)) = true ->
  id (store (turn text o w)) = id (store w)
  /\ title (store (turn text o w)) = title (store w).
Proof.
  intros Hid. unfold turn, click_send, type_text.
  destruct (loading w) eqn:Hl; [rewrite Hl; auto|]. simpl. rewrite Hl.
  refine (preserves_send_reply same_heading _ _ _ _ _ _ (store w) o Hid
            (mkWorld (store w) text false (requests w)));
    unfold same_heading; try (intros; simpl; auto; fail).
  intros a b c [H1 H2] [H3 H4]. split; congruence.
Qed.

Lemma reply_keeps_heading_witness :
  id (store (turn (lit "and by city") (Resolves Samples.reply_with_table)
                  Samples.open_chat)) = id (store Samples.open_chat)
  /\ title (store (turn (lit "and by city") (Resolves Samples.reply_with_table)
                        Samples.open_chat)) = title (store Samples.open_chat).
Proof.
  apply (reply_keeps_heading Samples.open_chat (lit "and by city")
           (Resolves Samples.reply_with_table)).
  reflexivity.
Defined.

Lemma send_resume_unlocks (chat : Chat) (p : Pending) (o : outcome) (w : World) :
  loading (snd (send_resume chat p o w)) = false.
Proof.
  unfold send_resume, finally.
  now destruct (try_catch (if truthy (id chat) then reply_chat chat p o
                           else start_chat chat p o) (on_error chat p) w).
Qed.

Lemma send_resume_same_input (chat : Chat) (p : Pending) (o : outcome) (w : World) :
  input (snd (send_resume chat p o w)) = input w.
Proof.
  refine (preserves_send_resume same_input _ _ _ _ _ chat p o w);
    unfold same_input; try (intros; reflexivity).
  intros a b c H1 H2. congruence.
Qed.

Lemma send_resume_same_requests (chat : Chat) (p : Pending) (o : outcome) (w : World) :
  requests (snd (send_resume chat p o w)) = requests w.
Proof.
  refine (preserves_send_resume same_requests _ _ _ _ _ chat p o w);
    unfold same_requests; try (intros; reflexivity).
  intros a b c H1 H2. congruence.
Qed.

(** [send] on a text that is not blank, up to its request: the input box
    is emptied; either the request is out and the window is locked, or
    [send] has ended and the window is as unlocked as it was. *)
Lemma send_begin_sent (chat : Chat) (text : jsstring) (l : bool) (rq : list Request) :
  trim text <> [] ->
  input (snd (send_begin chat (mkWorld chat text l rq))) = []
  /\ match fst (send_begin chat (mkWorld chat text l rq)) with
     | Ok (Some _) => True
     | _ => loading (snd (send_begin chat (mkWorld chat text l rq))) = l
     end.
Proof.
  intros Ht. unfold send_begin, bind, read. simpl.
  destruct (trim text); [contradiction|].
  unfold try_catch, appendThinking, bind.
  destruct (or_else (messages chat) (VArr [])); simpl; auto.
Qed.

(** When a turn is over the window is unlocked again and the input box is
    empty, whatever came back: a response, an error of the backend, a
    request that failed, a body that could not be read. *)
Theorem turn_unlocks_and_clears (w : World) (text : jsstring) (o : outcome) :
  loading w = false -> trim text <> [] ->
  loading (turn text o w) = false /\ input (turn text o w) = [].
Proof.
  intros Hl Ht. unfold turn, click_send, type_text. rewrite Hl. simpl. rewrite Hl.
  unfold send, bind.
  destruct (send_begin_sent (store w) text false (requests w) Ht) as [Hi Hp].
  destruct (send_begin (store w) (mkWorld (store w) text false (requests w)))
    as [[[p|]|e] w1]; simpl in *; auto.
  rewrite send_resume_unlocks, send_resume_same_input. auto.
Qed.

Lemma turn_unlocks_and_clears_witness :
  loading (turn (lit "again") (Rejects Samples.failed_to_fetch) Samples.open_chat) = false
  /\ input (turn (lit "again") (Rejects Samples.failed_to_fetch) Samples.open_chat) = [].
Proof.
  apply (turn_unlocks_and_clears Samples.open_chat (lit "again")
           (Rejects Samples.failed_to_fetch)).
  - reflexivity.
  - vm_compute. discriminate.
Defined.

(** A turn makes one request, and only one, whatever comes back: to
    [/start] while the chat has no id, to [/chat/<id>/reply] once it has. *)
Theorem turn_sends_one_request
    (w : World) (text : jsstring) (o : outcome) (items : list value) :
  loading w = false -> trim text <> [] -> messages (store w) = VArr items ->
  requests (turn text o w) = requests w ++ [request_of (store w) text].
Proof.
  intros Hl Ht Hm. unfold turn, click_send, type_text. rewrite Hl. simpl. rewrite Hl.
  unfold send, bind.
  assert (E : send_begin (store w) (mkWorld (store w) text false (requests w)) =
              (Ok (Some (mkPending text (items ++ [msg "user" (VStr text)]))),
               mkWorld (merge (store w)
                          (patch_messages
                             (VArr (items ++ [msg "assistant" (VStr thinking)]))))
                       [] true (requests w ++ [request_of (store w) text]))).
  { unfold send_begin, bind, read. simpl. destruct (trim text); [contradiction|].
    unfold try_catch, appendThinking, bind. rewrite Hm. simpl.
    destruct (store w); reflexivity. }
  rewrite E. now rewrite send_resume_same_requests.
Qed.

Lemma turn_sends_one_request_witness :
  requests (turn (lit "hi") (Resolves Samples.started) Samples.new_chat)
    = requests Samples.new_chat ++ [request_of (store Samples.new_chat) (lit "hi")].
Proof.
  apply (turn_sends_one_request Samples.new_chat (lit "hi")
           (Resolves Samples.started) []).
  - reflexivity.
  - vm_compute. discriminate.
  - reflexivity.
Defined.

Lemma trim_start_blank (s : jsstring) :
  forallb is_white_space s = true -> trim_start s = [].
Proof.
  induction s as [|c r IH]; simpl; [reflexivity|].
  intros H. apply andb_true_iff in H as [Hc Hr]. rewrite Hc. now apply IH.
Qed.

(** Sending a text made of white space only does nothing: no message, no
    request, the text stays in the box. *)
Theorem blank_text_is_not_sent (w : World) (text : jsstring) (o : outcome) :
  forallb is_white_space text = true -> turn text o w = type_text text w.
Proof.
  intros Hb. unfold turn, click_send, type_text.
  destruct (loading w) eqn:Hl; [now rewrite Hl|]. simpl. rewrite Hl.
  unfold send, send_begin, bind, read. simpl.
  unfold trim. now rewrite (trim_start_blank text Hb).
Qed.

Lemma blank_text_is_not_sent_witness :
  turn (lit "   ") (Resolves Samples.started) Samples.new_chat
    = type_text (lit "   ") Samples.new_chat.
Proof.
  apply (blank_text_is_not_sent Samples.new_chat (lit "   ") (Resolves Samples.started)).
  reflexivity.
Defined.

End WindowFacts.

(** ** Titles and lines: [split] and [join] *)
Module TextFacts.

Import JS Window ChatView.
Local Open Scope N_scope.

Lemma split_on_cons (sep : N) (s cur : jsstring) :
  exists x r, split_on sep s cur = x :: r.
Proof.
  revert cur. induction s as [|c s IH]; intros cur; simpl.
  - now exists (rev cur), [].
  - destruct (c =? sep); [now exists (rev cur), (split_on sep s [])|apply IH].
Qed.

Lemma join_cons (sep x y : jsstring) (r : list jsstring) :
  join sep (x :: y :: r) = x ++ sep ++ join sep (y :: r).
Proof. reflexivity. Qed.

(** [s.split(c).join(c)] is [s]. *)
Lemma join_split_on (sep : N) (s cur : jsstring) :
  join [sep] (split_on sep s cur) = rev cur ++ s.
Proof.
  revert cur. induction s as [|c s IH]; intros cur; simpl.
  - now rewrite app_nil_r.
  - destruct (c =? sep) eqn:E.
    + apply N.eqb_eq in E. subst c.
      destruct (split_on_cons sep s []) as [x [r Ex]].
      pose proof (IH []) as H. rewrite Ex in *. rewrite join_cons, H. reflexivity.
    + rewrite IH. simpl. now rewrite <- app_assoc.
Qed.

Lemma length_split_on (sep : N) (s cur : jsstring) :
  length (split_on sep s cur) = S (count_unit sep s).
Proof.
  revert cur. unfold count_unit. induction s as [|c s IH]; intros cur; simpl.
  - reflexivity.
  - rewrite (N.eqb_sym sep c). destruct (c =? sep); simpl; now rewrite IH.
Qed.

(** The first pieces of a split, joined again, begin the string. *)
Lemma join_firstn_split_on (sep : N) (n : nat) (s cur : jsstring) :
  exists rest, rev cur ++ s = join [sep] (firstn (S n) (split_on sep s cur)) ++ rest.
Proof.
  revert n cur. induction s as [|c s IH]; intros n cur.
  - exists []. simpl. now destruct n.
  - simpl split_on. destruct (c =? sep) eqn:E.
    + apply N.eqb_eq in E. subst c. destruct n as [|n].
      * exists (sep :: s). reflexivity.
      * destruct (IH n []) as [rest Hr]. simpl in Hr.
        destruct (split_on_cons sep s []) as [x [r Ex]]. rewrite Ex in *.
        exists rest. change (firstn (S (S n)) (rev cur :: x :: r))
          with (rev cur :: x :: firstn n r).
        rewrite join_cons. change (firstn (S n) (x :: r)) with (x :: firstn n r) in Hr.
        rewrite Hr at 1. now rewrite <- !app_assoc.
    + destruct (IH n (c :: cur)) as [rest Hr]. exists rest.
      rewrite <- Hr. simpl. now rewrite <- app_assoc.
Qed.

Lemma count_unit_app (c : N) (a b : jsstring) :
  count_unit c (a ++ b) = (count_unit c a + count_unit c b)%nat.
Proof. unfold count_unit. now rewrite filter_app, length_app. Qed.

Lemma count_unit_rev (c : N) (s : jsstring) :
  count_unit c (rev s) = count_unit c s.
Proof. unfold count_unit. now rewrite filter_rev, length_rev. Qed.

(** No piece of a split holds the separator. *)
Lemma split_on_pieces (sep : N) (s cur : jsstring) :
  count_unit sep cur = 0%nat ->
  Forall (fun piece => count_unit sep piece = 0%nat) (split_on sep s cur).
Proof.
  revert cur. induction s as [|c s IH]; intros cur Hc; simpl.
  - constructor; [|constructor]. now rewrite count_unit_rev.
  - destruct (c =? sep) eqn:E.
    + constructor; [now rewrite count_unit_rev|now apply IH].
    + apply IH. unfold count_unit in *. simpl. rewrite (N.eqb_sym sep c), E. exact Hc.
Qed.

Lemma count_unit_join (sep : N) (l : list jsstring) :
  Forall (fun piece => count_unit sep piece = 0%nat) l ->
  count_unit sep (join [sep] l) = pred (length l).
Proof.
  induction 1 as [|x r Hx Hr IH]; [reflexivity|].
  destruct r as [|y r]; [exact Hx|].
  rewrite join_cons, !count_unit_app, IH, Hx. unfold count_unit. simpl.
  now rewrite N.eqb_refl.
Qed.

Lemma Forall_firstn {A : Type} (P : A -> Prop) (n : nat) (l : list A) :
  Forall P l -> Forall P (firstn n l).
Proof.
  intros H. revert n. induction H; intros [|n]; simpl; constructor; auto.
Qed.

(** [currentInput.split(' ').slice(0,3).join(' ')], the title of a chat
    whose response brings none, begins the text and holds at most two
    spaces. *)
Lemma first_words_begin (text : jsstring) :
  (exists rest, text = first_words text ++ rest)
  /\ (count_unit 32 (first_words text) <= 2)%nat.
Proof.
  unfold first_words. change (lit " ") with [32]. split.
  - exact (join_firstn_split_on 32 2 text []).
  - rewrite count_unit_join
      by (apply Forall_firstn; now apply split_on_pieces).
    rewrite length_firstn. lia.
Qed.

(** A text of at most two spaces is its own title. *)
Lemma first_words_whole (text : jsstring) :
  (count_unit 32 text <= 2)%nat -> first_words text = text.
Proof.
  intros H. unfold first_words. change (lit " ") with [32].
  rewrite firstn_all2 by (rewrite length_split_on; lia).
  apply (join_split_on 32 text []).
Qed.

Lemma first_words_whole_witness :
  first_words (lit "top ten incubators") = lit "top ten incubators".
Proof.
  apply (first_words_whole (lit "top ten incubators")). vm_compute. lia.
Defined.

(** The title [send] makes of the text of a first message, its first
    three pieces between spaces joined by spaces: it begins the text, it
    holds at most two spaces, and it is the whole text when the text holds
    at most two. *)
Theorem title_of_first_words (text : jsstring) :
  (exists rest, text = first_words text ++ rest)
  /\ (count_unit 32 (first_words text) <= 2)%nat
  /\ ((count_unit 32 text <= 2)%nat -> first_words text = text).
Proof.
  destruct (first_words_begin text) as [H1 H2].
  split; [exact H1|]. split; [exact H2|]. apply first_words_whole.
Qed.

Example title_of_four_words :
  first_words (lit "top ten incubators in India") = lit "top ten incubators".
Proof. vm_compute. reflexivity. Qed.


End TextFacts.

(** ** [ChatWindow.jsx]: what a turn leaves, branch by branch *)
Module TurnFacts.

Import JS Eff WebCrawler Window EffFacts WebCrawlerFacts.
Local Open Scope eff_scope.

#[local] Arguments lit : simpl never.
#[local] Arguments to_string : simpl never.
#[local] Arguments prop : simpl never.
#[local] Arguments JSON.stringify : simpl never.

(** The first turn of a chat, its response [ok]: the chat takes the
    [chat_id] of the response; its [title], or the first three words of the
    text when it has none; its [messages] as they come, not copied, or,
    when it has none, the user's message followed by the [bot] answer if
    there is one. *)
Theorem start_response_intake
    (w : World) (text : jsstring) (data : value) (items : list value) :
  shown (store w) items -> loading w = false -> trim text <> [] ->
  truthy (id (store w)) = false ->
  truthy (field data "ok") = true ->
  id (store (turn text (Resolves data) w)) = field data "chat_id"
  /\ title (store (turn text (Resolves data) w))
     = or_else (field data "title") (VStr (first_words text))
  /\ messages (store (turn text (Resolves data) w))
     = if truthy (field data "messages") then field data "messages"
       else VArr (items ++ [msg "user" (VStr text)]
                  ++ if truthy (field data "bot")
                     then [msg "assistant" (field data "bot")] else []).
Proof.
  intros Hs Hl Ht Hid Hok.
  rewrite (turn_unfold items text (Resolves data) w Hs Hl Ht).
  assert (Hn : nullish data = false) by (destruct data; simpl in *; congruence).
  unfold send_resume. rewrite guarded_store, Hid.
  unfold start_chat, bind, await, ret.
  rewrite (removeThinking_ok (store w) items _ Hs).
  rewrite (prop_field data "ok" _ Hn), Hok.
  rewrite !(prop_field data _ _ Hn). simpl. rewrite (prop_field data "bot" _ Hn).
  unfold first_words, or_else.
  destruct (truthy (field data "messages")); simpl;
    [repeat split|]. 
  destruct (truthy (field data "bot")); simpl; repeat split;
    now rewrite <- ?app_assoc, ?app_nil_r.
Qed.

Lemma start_response_intake_witness :
  id (store (turn (lit "hi") (Resolves Samples.started) Samples.new_chat))
    = field Samples.started "chat_id"
  /\ title (store (turn (lit "hi") (Resolves Samples.started) Samples.new_chat))
     = or_else (field Samples.started "title") (VStr (first_words (lit "hi")))
  /\ messages (store (turn (lit "hi") (Resolves Samples.started) Samples.new_chat))
     = if truthy (field Samples.started "messages")
       then field Samples.started "messages"
       else VArr ([] ++ [msg "user" (VStr (lit "hi"))]
                  ++ if truthy (field Samples.started "bot")
                     then [msg "assistant" (field Samples.started "bot")] else []).
Proof.
  apply (start_response_intake Samples.new_chat (lit "hi") Samples.started []).
  - split; reflexivity.
  - reflexivity.
  - vm_compute. discriminate.
  - reflexivity.
  - reflexivity.
Defined.

(** A response that is not [ok], to a first message or to a reply: one
    message [Error: <error>] after the user's, [Unknown] standing for an
    [error] that is absent or empty; the id and the title stay. *)
Theorem backend_refusal_reported
    (w : World) (text : jsstring) (data : value) (items : list value) :
  shown (store w) items -> loading w = false -> trim text <> [] ->
  nullish data = false -> truthy (field data "ok") = false ->
  messages (store (turn text (Resolves data) w))
    = VArr (items ++ [msg "user" (VStr text);
                      msg "assistant"
                          (concat (lit "Error: ")
                                  (or_else (field data "error") (VStr (lit "Unknown"))))])
  /\ id (store (turn text (Resolves data) w)) = id (store w)
  /\ title (store (turn text (Resolves data) w)) = title (store w).
Proof.
  intros Hs Hl Ht Hn Hok.
  rewrite (turn_unfold items text (Resolves data) w Hs Hl Ht).
  unfold send_resume. rewrite guarded_store.
  destruct (truthy (id (store w)));
    unfold reply_chat, start_chat, bind, await, ret;
    rewrite (removeThinking_ok (store w) items _ Hs);
    rewrite (prop_field data "ok" _ Hn), Hok;
    rewrite (prop_field data "error" _ Hn); simpl;
    now rewrite <- app_assoc.
Qed.

Lemma backend_refusal_reported_witness :
  messages (store (turn (lit "hi") (Resolves Samples.refused) Samples.new_chat))
    = VArr ([] ++ [msg "user" (VStr (lit "hi"));
                   msg "assistant"
                       (concat (lit "Error: ")
                               (or_else (field Samples.refused "error")
                                        (VStr (lit "Unknown"))))])
  /\ id (store (turn (lit "hi") (Resolves Samples.refused) Samples.new_chat))
     = id (store Samples.new_chat)
  /\ title (store (turn (lit "hi") (Resolves Samples.refused) Samples.new_chat))
     = title (store Samples.new_chat).
Proof.
  apply (backend_refusal_reported Samples.new_chat (lit "hi") Samples.refused []).
  - split; reflexivity.
  - reflexivity.
  - vm_compute. discriminate.
  - reflexivity.
  - reflexivity.
Defined.

(** A reply whose response is [ok] and brings no history: the user's
    message, then the [bot_text] if there is one, then the table if the
    response has [columns] and [rows]. *)
Theorem reply_without_history
    (w : World) (text : jsstring) (data : value) (items : list value) :
  shown (store w) items -> loading w = false -> trim text <> [] ->
  truthy (id (store w)) = true ->
  truthy (field data "ok") = true ->
  truthy (field data "messages") = false ->
  messages (store (turn text (Resolves data) w))
    = VArr (items ++ [msg "user" (VStr text)]
            ++ (if truthy (field data "bot_text")
                then [msg "assistant" (field data "bot_text")] else [])
            ++ if truthy (field data "columns") && truthy (field data "rows")
               then [table_message (field data "columns") (field data "rows")]
               else []).
Proof.
  intros Hs Hl Ht Hid Hok Hm.
  rewrite (turn_unfold items text (Resolves data) w Hs Hl Ht).
  assert (Hn : nullish data = false) by (destruct data; simpl in *; congruence).
  unfold send_resume. rewrite guarded_store, Hid.
  unfold reply_chat, bind, await, ret.
  rewrite (removeThinking_ok (store w) items _ Hs).
  rewrite (prop_field data "ok" _ Hn), Hok.
  rewrite (prop_field data "messages" _ Hn), Hm.
  rewrite !(prop_field data _ _ Hn). rewrite and_then_truthy. simpl.
  now rewrite <- app_assoc.
Qed.

Lemma reply_without_history_witness :
  messages (store (turn (lit "and by city") (Resolves Samples.reply_bot_table)
                        Samples.open_chat))
    = VArr ([msg "user" (Samples.str "top incubators");
             msg "assistant" (Samples.str "Here they are")]
            ++ [msg "user" (VStr (lit "and by city"))]
            ++ (if truthy (field Samples.reply_bot_table "bot_text")
                then [msg "assistant" (field Samples.reply_bot_table "bot_text")]
                else [])
            ++ if truthy (field Samples.reply_bot_table "columns")
                  && truthy (field Samples.reply_bot_table "rows")
               then [table_message (field Samples.reply_bot_table "columns")
                                   (field Samples.reply_bot_table "rows")]
               else []).
Proof.
  apply (reply_without_history Samples.open_chat (lit "and by city")
           Samples.reply_bot_table
           [msg "user" (Samples.str "top incubators");
            msg "assistant" (Samples.str "Here they are")]).
  - split; reflexivity.
  - reflexivity.
  - vm_compute. discriminate.
  - reflexivity.
  - reflexivity.
  - reflexivity.
Defined.

(** A response whose body is [null]: reading [data.ok] throws, and the
    turn ends as a failed request does, with one [Network error] message
    holding the message of the TypeError. *)
Theorem null_body_reported
    (w : World) (text : jsstring) (data : value) (items : list value) :
  shown (store w) items -> loading w = false -> trim text <> [] ->
  nullish data = true ->
  messages (store (turn text (Resolves data) w))
    = VArr (items ++ [msg "user" (VStr text);
                      msg "assistant"
                          (VStr (lit "Network error: "
                                 ++ message (null_property_error (lit "ok"))))])
  /\ id (store (turn text (Resolves data) w)) = id (store w).
Proof.
  intros Hs Hl Ht Hn.
  rewrite (turn_unfold items text (Resolves data) w Hs Hl Ht).
  unfold send_resume. rewrite guarded_store.
  assert (Hp : forall w0 : World,
             prop data "ok" w0 = (Throw (null_property_error (lit "ok")), w0)).
  { intros w0. unfold prop. destruct data; simpl in Hn; try discriminate; reflexivity. }
  destruct (truthy (id (store w)));
    unfold reply_chat, start_chat, bind, await, ret;
    rewrite (removeThinking_ok (store w) items _ Hs);
    rewrite Hp; unfold on_error, bind;
    rewrite (removeThinking_ok (store w) items _ Hs); simpl;
    now rewrite <- app_assoc.
Qed.

Lemma null_body_reported_witness :
  messages (store (turn (lit "hi") (Resolves VNull) Samples.new_chat))
    = VArr ([] ++ [msg "user" (VStr (lit "hi"));
                   msg "assistant"
                       (VStr (lit "Network error: "
                              ++ message (null_property_error (lit "ok"))))])
  /\ id (store (turn (lit "hi") (Resolves VNull) Samples.new_chat))
     = id (store Samples.new_chat).
Proof.
  apply (null_body_reported Samples.new_chat (lit "hi") VNull []).
  - split; reflexivity.
  - reflexivity.
  - vm_compute. discriminate.
  - reflexivity.
Defined.

(** The first answer gives the new chat its id. *)
Lemma turn_id_change_witness :
  truthy (id (store Samples.new_chat)) = false
  /\ exists data,
       Resolves Samples.started = Resolves data
       /\ truthy (field data "ok") = true
       /\ id (store (turn (lit "hi") (Resolves Samples.started) Samples.new_chat))
          = field data "chat_id".
Proof.
  apply (turn_id_change (lit "hi") (Resolves Samples.started) Samples.new_chat).
  vm_compute. discriminate.
Defined.

End TurnFacts.

(** ** [App.jsx]: chats addressed by index *)
Module ShellFacts.

Import JS Eff WebCrawler Shell EffFacts WebCrawlerFacts.
Local Open Scope eff_scope.

#[local] Arguments lit : simpl never.
#[local] Arguments to_string : simpl never.
#[local] Arguments prop : simpl never.
#[local] Arguments JSON.stringify : simpl never.

Lemma nth_error_put_same (idx : nat) (x : Chat) (l : list Chat) :
  (idx < length l)%nat -> nth_error (put idx x l) idx = Some x.
Proof.
  revert idx. induction l as [|c r IH]; intros [|i] H; simpl in *; try lia; auto.
  apply IH. lia.
Qed.

Lemma nth_error_put_other (idx j : nat) (x : Chat) (l : list Chat) :
  j <> idx -> nth_error (put idx x l) j = nth_error l j.
Proof.
  revert idx j.
  induction l as [|c r IH]; intros [|i] [|j] H; simpl; auto; try contradiction.
Qed.

Lemma length_put (idx : nat) (x : Chat) (l : list Chat) :
  length (put idx x l) = length l.
Proof. revert idx. induction l as [|c r IH]; intros [|i]; simpl; auto. Qed.

Lemma put_put (idx : nat) (x y : Chat) (l : list Chat) :
  put idx y (put idx x l) = put idx y l.
Proof.
  revert idx. induction l as [|c r IH]; intros [|i]; simpl; auto. now rewrite IH.
Qed.

(** A chat put at [idx], a chat put in front, another put at [idx]: the
    first is one place down. *)
Lemma nth_error_put_shifted (idx : nat) (x y front : Chat) (l : list Chat) :
  (idx < length l)%nat ->
  nth_error (put idx y (front :: put idx x l)) (S idx) = Some x.
Proof.
  intros Hlt. rewrite (nth_error_put_other idx (S idx)) by lia.
  cbn [nth_error]. now apply nth_error_put_same.
Qed.

Lemma nth_put_same (idx : nat) (x d : Chat) (l : list Chat) :
  (idx < length l)%nat -> nth idx (put idx x l) d = x.
Proof.
  revert idx. induction l as [|c r IH]; intros [|i] H; simpl in *; try lia; auto.
  apply IH. lia.
Qed.

(** The chat at [idx] merged with a patch and put back is
    [updateChat(idx, patch)] of [App.jsx], whatever [idx]. *)
Lemma put_merge (idx : nat) (patch : Patch) (d : Chat) (l : list Chat) :
  put idx (merge (nth idx l d) patch) l = App_updateChat idx patch l.
Proof.
  revert idx. induction l as [|c r IH]; intros [|i]; simpl; auto. now rewrite IH.
Qed.

(** An [updateChat(patch)] of a window bound to [idx] is
    [updateChat(idx, patch)] on the list. *)
Lemma in_window_updateChat (idx : nat) (live : bool) (patch : Patch) (a : App) :
  in_window idx live (updateChat patch) a =
    (Ok tt, mkApp (App_updateChat idx patch (chats a)) (activeId a)
                  (window_input a) (window_loading a) (requests_sent a)
                  (in_flight a)).
Proof.
  unfold in_window, updateChat, modify, window_at. simpl.
  rewrite put_merge. now destruct live.
Qed.

(** What a mounted window runs in sequence runs in sequence on the
    list. *)
Lemma in_window_bind {A B : Type}
    (idx : nat) (m : M World A) (k : A -> M World B) (a : App) :
  (idx < length (chats a))%nat ->
  in_window idx true (bind m k) a =
    bind (in_window idx true m) (fun x => in_window idx true (k x)) a.
Proof.
  intros Hlt. unfold in_window, bind.
  destruct (m (window_at idx a)) as [[x|e] w] eqn:E; [|reflexivity].
  unfold window_at. simpl.
  rewrite (nth_put_same idx (store w) newChat (chats a) Hlt).
  destruct w as [st inp l rq]. simpl.
  destruct (k x (mkWorld st inp l rq)) as [r w2]. now rewrite put_put.
Qed.

Lemma nth_error_nth_chat (idx : nat) (l : list Chat) (c : Chat) :
  nth_error l idx = Some c -> nth idx l newChat = c /\ (idx < length l)%nat.
Proof.
  intros E. split; [now apply nth_error_nth|].
  apply nth_error_Some. congruence.
Qed.

(** A turn during which nothing else happens to [App] is a [turn] of the
    window on the active chat, put back at its index. *)
Lemma uninterrupted_turn
    (a : App) (idx : nat) (c : Chat) (text : jsstring) (o : outcome) :
  activeId a = Some idx -> nth_error (chats a) idx = Some c ->
  window_loading a = false -> in_flight a = [] ->
  let w := turn text o (mkWorld c (window_input a) false (requests_sent a)) in
  run [Send text; Response 0 o] a =
    mkApp (put idx (store w) (chats a)) (Some idx) (input w) (loading w)
          (requests w) [].
Proof.
  intros Hact Hnth Hl Hf w. subst w.
  destruct (nth_error_nth_chat idx (chats a) c Hnth) as [Hc Hlt].
  unfold turn, click_send, type_text. simpl.
  unfold run, step, App_send. rewrite Hact, Hnth, Hl.
  unfold in_window at 1. unfold window_at. simpl. rewrite Hc, Hf.
  unfold send, bind.
  destruct (send_begin c (mkWorld c text false (requests_sent a)))
    as [[[p|]|e] w1]; simpl.
  - unfold App_response. simpl. unfold in_window, window_at. simpl.
    rewrite (nth_put_same idx (store w1) newChat (chats a) Hlt).
    destruct w1 as [st inp l rq]. simpl.
    destruct (send_resume c p o (mkWorld st inp l rq)) as [r w2]. simpl.
    now rewrite put_put.
  - reflexivity.
  - reflexivity.
Qed.

Lemma placeholder_message : is_placeholder (msg "assistant" (VStr thinking)) = true.
Proof. reflexivity. Qed.

(** The state of [App] once a window on a renderable chat has sent a text
    that is not blank and its request is out. *)
Lemma App_send_out
    (a : App) (idx : nat) (c : Chat) (items : list value) (text : jsstring) :
  activeId a = Some idx -> nth_error (chats a) idx = Some c -> shown c items ->
  window_loading a = false -> trim text <> [] ->
  App_send text a =
    mkApp (put idx (merge c (patch_messages
                               (VArr (items ++ [msg "assistant" (VStr thinking)]))))
               (chats a))
          (Some idx) [] true
          (requests_sent a ++ [Window.request_of c text])
          (in_flight a
           ++ [mkFlight idx c (mkPending text (items ++ [msg "user" (VStr text)])) true]).
Proof.
  intros Hact Hnth Hs Hl Ht.
  destruct (nth_error_nth_chat idx (chats a) c Hnth) as [Hc Hlt].
  unfold App_send. rewrite Hact, Hnth, Hl.
  unfold in_window, window_at. simpl. rewrite Hc.
  rewrite (send_begin_pending c items text false (requests_sent a) Hs Ht).
  reflexivity.
Qed.

(** C4, on the code.  A window sends a text; while the request is out the
    user clicks New Chat; the response comes, or the request fails.  The
    rest of [send] patches the index it was bound to, where another chat
    now is: the chat that sent the text, now one place down, keeps for
    good the list [appendThinking] wrote, the messages it had and then
    the placeholder, and nothing is left in flight that would remove
    it. *)
Theorem placeholder_left_by_new_chat
    (a : App) (idx : nat) (c : Chat) (items : list value)
    (text : jsstring) (o : outcome) :
  activeId a = Some idx -> nth_error (chats a) idx = Some c -> shown c items ->
  window_loading a = false -> trim text <> [] -> in_flight a = [] ->
  let a' := run [Send text; NewChat; Response 0 o] a in
  in_flight a' = []
  /\ (exists left,
        nth_error (chats a') (S idx) = Some left
        /\ id left = id c
        /\ messages left = VArr (items ++ [msg "assistant" (VStr thinking)])
        /\ holds_placeholder (messages left) = true)
  /\ exists hit,
       nth_error (chats a') idx = Some hit
       /\ commits c (items ++ [msg "user" (VStr text)]) o (messages hit).
Proof.
  intros Hact Hnth Hs Hl Ht Hf a'. subst a'.
  destruct (nth_error_nth_chat idx (chats a) c Hnth) as [Hc Hlt].
  unfold run, step. rewrite (App_send_out a idx c items text Hact Hnth Hs Hl Ht), Hf.
  unfold App_newChat, App_response. simpl.
  unfold in_window. 
  match goal with |- context [send_resume ?ch ?p ?o ?w] =>
    pose proof (send_resume_commits c items (items ++ [msg "user" (VStr text)])
                  text o w Hs) as Hcommit;
    destruct (send_resume ch p o w) as [r w'] end.
  cbn [snd chats in_flight]. split; [reflexivity|]. split.
  - exists (merge c (patch_messages
                       (VArr (items ++ [msg "assistant" (VStr thinking)])))).
    split; [|split; [|split]].
    + exact (nth_error_put_shifted idx _ (store w') newChat (chats a) Hlt).
    + reflexivity.
    + reflexivity.
    + simpl. rewrite existsb_app. simpl. now rewrite orb_true_r.
  - exists (store w'). split; [|exact Hcommit].
    refine (nth_error_put_same idx (store w') (newChat :: put idx _ (chats a)) _).
    cbn [length]. rewrite length_put. lia.
Qed.

(** One chat, its first message sent; New Chat; the answer. *)
Lemma placeholder_left_by_new_chat_witness :
  let a' := run [Send (lit "hi"); NewChat; Response 0 (Resolves Samples.started)]
                Samples.one_chat in
  in_flight a' = []
  /\ (exists left,
        nth_error (chats a') 1 = Some left
        /\ id left = id newChat
        /\ messages left = VArr ([] ++ [msg "assistant" (VStr thinking)])
        /\ holds_placeholder (messages left) = true)
  /\ exists hit,
       nth_error (chats a') 0 = Some hit
       /\ commits newChat ([] ++ [msg "user" (VStr (lit "hi"))])
                  (Resolves Samples.started) (messages hit).
Proof.
  apply (placeholder_left_by_new_chat Samples.one_chat 0 newChat []
           (lit "hi") (Resolves Samples.started)).
  - reflexivity.
  - reflexivity.
  - split; reflexivity.
  - reflexivity.
  - vm_compute. discriminate.
  - reflexivity.
Defined.

(** The chats the sample leaves: the new chat has taken the id, the title
    and the answer; the chat the message was sent from shows the dots. *)
Example new_chat_takes_the_answer :
  chats (run [Send (lit "hi"); NewChat; Response 0 (Resolves Samples.started)]
             Samples.one_chat)
    = [mkChat (VNum (of_N 7)) (Samples.str "Greeting")
              (VArr [msg "user" (VStr (lit "hi"));
                     msg "assistant" (Samples.str "hello")]);
       mkChat VNull (VStr (lit "New chat"))
              (VArr [msg "assistant" (VStr thinking)])].
Proof. vm_compute. reflexivity. Qed.

(** A first message answered [ok] writes the [chat_id] of the response
    into the chat its [updateChat] reaches, whichever that is. *)
Lemma send_resume_start_ok
    (chat : Chat) (items : list value) (p : Pending) (data : value) (w : World) :
  shown chat items -> truthy (id chat) = false ->
  truthy (field data "ok") = true ->
  id (store (snd (send_resume chat p (Resolves data) w))) = field data "chat_id".
Proof.
  intros Hs Hid Hok.
  assert (Hn : nullish data = false) by (destruct data; simpl in *; congruence).
  unfold send_resume. rewrite guarded_store, Hid.
  unfold start_chat, bind, await, ret.
  rewrite (removeThinking_ok chat items _ Hs).
  rewrite (prop_field data "ok" _ Hn), Hok.
  rewrite !(prop_field data _ _ Hn). simpl. rewrite (prop_field data "bot" _ Hn).
  destruct (negb (truthy (field data "messages")) && truthy (field data "bot"));
    reflexivity.
Qed.

(** C5, on the code.  A chat without an id sends its first message from
    the window at index [S j]; while the request is out the user clicks
    New Chat; the response is [ok].  The id of the response is written at
    index [S j], where the chat that was at [j] now is: whatever id that
    chat had, it now has the id of another session, and the chat that
    sent the message, two places down, still has none. *)
Theorem assigned_id_overwritten_by_new_chat
    (a : App) (j : nat) (other c : Chat) (items : list value)
    (text : jsstring) (data : value) :
  activeId a = Some (S j) ->
  nth_error (chats a) j = Some other -> nth_error (chats a) (S j) = Some c ->
  shown c items -> truthy (id c) = false ->
  window_loading a = false -> trim text <> [] -> in_flight a = [] ->
  truthy (field data "ok") = true ->
  let a' := run [Send text; NewChat; Response 0 (Resolves data)] a in
  nth_error (chats (run [Send text; NewChat] a)) (S j) = Some other
  /\ exists hit kept,
       nth_error (chats a') (S j) = Some hit
       /\ id hit = field data "chat_id"
       /\ nth_error (chats a') (S (S j)) = Some kept
       /\ id kept = id c.
Proof.
  intros Hact Ho Hnth Hs Hid Hl Ht Hf Hok a'. subst a'.
  destruct (nth_error_nth_chat (S j) (chats a) c Hnth) as [Hc Hlt].
  unfold run, step.
  rewrite (App_send_out a (S j) c items text Hact Hnth Hs Hl Ht), Hf.
  unfold App_newChat, App_response.
  cbn [chats in_flight map app nth_error bound captured pending mounted without
       activeId window_input window_loading requests_sent].
  split.
  { rewrite (nth_error_put_other (S j) j) by lia. exact Ho. }
  unfold in_window.
  match goal with |- context [send_resume ?ch ?p ?o ?w] =>
    pose proof (send_resume_start_ok c items p data w Hs Hid Hok) as Hassign;
    destruct (send_resume ch p o w) as [r w'] end.
  cbn [snd chats] in *.
  exists (store w'), (merge c (patch_messages
                                (VArr (items ++ [msg "assistant" (VStr thinking)])))).
  split; [|split; [exact Hassign|split; [|reflexivity]]].
  - refine (nth_error_put_same (S j) (store w') (newChat :: put (S j) _ (chats a)) _).
    cbn [length]. rewrite length_put. lia.
  - exact (nth_error_put_shifted (S j) _ (store w') newChat (chats a) Hlt).
Qed.

(** The state the sample clicks lead to. *)
Example two_chats_state :
  chats Samples.two_chats = [Samples.answered_chat; newChat]
  /\ activeId Samples.two_chats = Some 1%nat
  /\ window_loading Samples.two_chats = false
  /\ in_flight Samples.two_chats = [].
Proof. vm_compute. repeat split. Qed.

(** A chat with id 7, and after it a new chat that sends its first
    message; New Chat; the answer, with id 8. *)
Lemma assigned_id_overwritten_by_new_chat_witness :
  let a' := run [Send (lit "hi"); NewChat; Response 0 (Resolves Samples.started_next)]
                Samples.two_chats in
  nth_error (chats (run [Send (lit "hi"); NewChat] Samples.two_chats)) 1
    = Some Samples.answered_chat
  /\ exists hit kept,
       nth_error (chats a') 1 = Some hit
       /\ id hit = field Samples.started_next "chat_id"
       /\ nth_error (chats a') 2 = Some kept
       /\ id kept = id newChat.
Proof.
  apply (assigned_id_overwritten_by_new_chat Samples.two_chats 0
           Samples.answered_chat newChat [] (lit "hi") Samples.started_next).
  - reflexivity.
  - vm_compute. reflexivity.
  - vm_compute. reflexivity.
  - split; reflexivity.
  - reflexivity.
  - reflexivity.
  - vm_compute. discriminate.
  - reflexivity.
  - reflexivity.
Defined.

(** The ids the sample leaves: the chat that had id 7 has id 8, the chat
    that was answered has none; and the next message of the first goes to
    the session of the second. *)
Example id_seven_becomes_eight :
  let a' := run [Send (lit "hi"); NewChat; Response 0 (Resolves Samples.started_next)]
                Samples.two_chats in
  map id (chats Samples.two_chats) = [VNum (of_N 7); VNull]
  /\ map id (chats a') = [VNull; VNum (of_N 8); VNull]
  /\ map url (requests_sent (run [Select 1; Send (lit "more")] a'))
     = [lit "http://localhost:8000/start"; lit "http://localhost:8000/start";
        lit "http://localhost:8000/chat/8/reply"].
Proof. vm_compute. repeat split. Qed.

(** A chat with id 7 sends a message and is answered, nothing else
    happening meanwhile. *)
Lemma uninterrupted_turn_witness :
  let w := turn (lit "and by city") (Resolves Samples.reply_with_table)
                (mkWorld Samples.answered_chat
                         (window_input (App_select 0 Samples.two_chats)) false
                         (requests_sent (App_select 0 Samples.two_chats))) in
  run [Send (lit "and by city"); Response 0 (Resolves Samples.reply_with_table)]
      (App_select 0 Samples.two_chats) =
    mkApp (put 0 (store w) (chats (App_select 0 Samples.two_chats))) (Some 0%nat)
          (input w) (loading w) (requests w) [].
Proof.
  apply (uninterrupted_turn (App_select 0 Samples.two_chats) 0
           Samples.answered_chat (lit "and by city")
           (Resolves Samples.reply_with_table)); vm_compute; reflexivity.
Defined.

Lemma Forall_without {A : Type} (P : A -> Prop) (k : nat) (l : list A) :
  Forall P l -> Forall P (without k l).
Proof.
  intros H. revert k. induction H as [|x r Hx Hr IH]; intros [|k]; simpl; auto.
Qed.

Lemma in_window_frame {A : Type} (idx : nat) (live : bool) (m : M World A) (a : App) :
  length (chats (snd (in_window idx live m a))) = length (chats a)
  /\ activeId (snd (in_window idx live m a)) = activeId a
  /\ in_flight (snd (in_window idx live m a)) = in_flight a.
Proof.
  unfold in_window. destruct (m (window_at idx a)) as [r w]. simpl.
  now rewrite length_put.
Qed.

Lemma step_well_bound (e : event) (a : App) :
  well_bound a -> well_bound (step e a).
Proof.
  intros Hwb. pose proof Hwb as [Hact Hfl]. destruct e as [|i|text|k o]; simpl.
  - split; simpl.
    + intros i [= <-]. lia.
    + apply Forall_map. revert Hfl. apply Forall_impl. intros f Hf. simpl. lia.
  - unfold App_select. destruct (nth_error (chats a) i) eqn:E; [|exact Hwb].
    split; simpl; [|exact Hfl].
    intros i' [= <-]. apply nth_error_Some. congruence.
  - unfold App_send. destruct (activeId a) as [idx|] eqn:Ea; [|exact Hwb].
    destruct (nth_error (chats a) idx) as [chat|] eqn:En; [|exact Hwb].
    destruct (window_loading a); [exact Hwb|].
    pose proof (in_window_frame idx true (send_begin chat)
                  (mkApp (chats a) (Some idx) text false (requests_sent a)
                         (in_flight a))) as [Hlen [Hsame Hflights]].
    destruct (in_window idx true (send_begin chat)
                (mkApp (chats a) (Some idx) text false (requests_sent a)
                       (in_flight a))) as [r a1].
    simpl in Hlen, Hsame, Hflights.
    assert (Hw : well_bound a1).
    { split; [rewrite Hsame, Hlen; exact Hact|].
      rewrite Hflights, Hlen. exact Hfl. }
    destruct r as [[p|]|err]; try exact Hw.
    destruct Hw as [Ha1 Hf1]. split; simpl; [exact Ha1|].
    apply Forall_app. split; [exact Hf1|].
    constructor; [|constructor]. simpl. rewrite Hlen. now apply Hact.
  - unfold App_response. destruct (nth_error (in_flight a) k) as [f|]; [|exact Hwb].
    pose proof (in_window_frame (bound f) (mounted f)
                  (send_resume (captured f) (pending f) o)
                  (mkApp (chats a) (activeId a) (window_input a) (window_loading a)
                         (requests_sent a) (without k (in_flight a))))
      as [Hlen [Hsame Hflights]].
    simpl in Hlen, Hsame, Hflights. split.
    + rewrite Hsame, Hlen. exact Hact.
    + rewrite Hflights, Hlen. now apply Forall_without.
Qed.

(** Whatever the clicks and the responses, from the start of [App], the
    active index and the index every request in flight is bound to are
    indices of the list: chats are added in front and never removed, so
    a late response always patches some chat. *)
Theorem run_well_bound (events : list event) : well_bound (run events no_chat).
Proof.
  assert (H : forall a, well_bound a -> well_bound (run events a)).
  { induction events as [|e rest IH]; intros a Ha; [exact Ha|].
    cbn [run]. apply IH. now apply step_well_bound. }
  apply H. split; [intros i E; discriminate E | constructor].
Qed.

(** A click on a chat of the side bar while a request is out does not
    change what its response does to the chats, nor what is sent: the
    list is not shifted, and the index the request is bound to still
    holds the chat that sent it. *)
Theorem select_does_not_divert (i k : nat) (o : outcome) (a : App) :
  chats (run [Select i; Response k o] a) = chats (run [Response k o] a)
  /\ requests_sent (run [Select i; Response k o] a)
     = requests_sent (run [Response k o] a)
  /\ in_flight (run [Select i; Response k o] a) = in_flight (run [Response k o] a).
Proof.
  unfold run, step, App_select.
  destruct (nth_error (chats a) i); [|auto].
  unfold App_response. cbn [in_flight chats window_input window_loading requests_sent].
  destruct (nth_error (in_flight a) k) as [f|]; [|auto].
  unfold in_window, window_at.
  cbn [in_flight chats window_input window_loading requests_sent].
  destruct (send_resume (captured f) (pending f) o
              (mkWorld (nth (bound f) (chats a) newChat) (window_input a)
                       (window_loading a) (requests_sent a))) as [r w].
  auto.
Qed.

(** A title written into the second of two chats. *)
Lemma App_updateChat_nth_witness :
  nth 1 (App_updateChat 1 (mkPatch None (Some (Samples.str "Incubators")) None)
                        [Samples.answered_chat; newChat]) newChat
    = merge (nth 1 [Samples.answered_chat; newChat] newChat)
            (mkPatch None (Some (Samples.str "Incubators")) None)
  /\ forall j, j <> 1%nat ->
       nth j (App_updateChat 1 (mkPatch None (Some (Samples.str "Incubators")) None)
                             [Samples.answered_chat; newChat]) newChat
         = nth j [Samples.answered_chat; newChat] newChat.
Proof.
  apply (App_updateChat_nth 1 (mkPatch None (Some (Samples.str "Incubators")) None)
           [Samples.answered_chat; newChat] newChat).
  simpl. lia.
Defined.

(** A first answer whose [chat_id] is 0: the chat takes it, and its next
    message goes to [/start] again, whose answer gives it another id. *)
Example falsy_chat_id_starts_again :
  let first := turn (lit "hi") (Resolves Samples.started_zero) Samples.new_chat in
  let second := turn (lit "more") (Resolves Samples.started) first in
  id (store first) = VNum (of_N 0)
  /\ id (store second) = VNum (of_N 7)
  /\ map url (requests second)
     = [lit "http://localhost:8000/start"; lit "http://localhost:8000/start"].
Proof. vm_compute. repeat split. Qed.

End ShellFacts.

(** ** [ChatMessage.jsx]: tables, and what is not one *)
Module BubbleFacts.

Import JS Eff ChatMessage ChatMessageFacts.
Local Open Scope N_scope.

#[local] Arguments lit : simpl never.
#[local] Arguments trim : simpl never.
#[local] Arguments JSON.parse : simpl never.

Lemma reserved_text_starts (t : jsstring) :
  startsWith (trim t) 123 = true ->
  strict_eq_str (VStr t) WebCrawler.thinking = false /\ truthy (VStr t) = true.
Proof.
  intros Hs. split.
  - cbn [strict_eq_str]. destruct (str_eqb t WebCrawler.thinking) eqn:Et; [|reflexivity].
    apply StringFacts.str_eqb_eq in Et. subst t. vm_compute in Hs. discriminate.
  - destruct t; [vm_compute in Hs; discriminate | reflexivity].
Qed.

(** What is parsed when the payload lacks [columns] or [rows], or is not
    JSON at all. *)
Lemma parsed_of_missing (t : jsstring) :
  JSON.parse (trim t) = None
  \/ (exists parsed,
        JSON.parse (trim t) = Some parsed
        /\ (truthy (field parsed "columns") = false
            \/ truthy (field parsed "rows") = false)) ->
  parsed_of (VStr (lit "assistant")) (VStr t) = VNull.
Proof.
  intros H. unfold parsed_of. rewrite assistant_role.
  destruct (truthy (VStr t)); [|reflexivity]. cbn [andb].
  unfold try_parse.
  destruct (startsWith (trim t) 123 || startsWith (trim t) 91); [|reflexivity].
  destruct H as [E|[parsed [E H]]]; rewrite E; [reflexivity|].
  unfold field in H.
  destruct (get parsed (lit "columns")) as [columns|] eqn:Ec; [|reflexivity].
  destruct (get parsed (lit "rows")) as [rows|] eqn:Er.
  2:{ destruct parsed; simpl in Ec, Er; discriminate. }
  destruct H as [H|H]; rewrite H; [reflexivity|].
  now rewrite orb_true_r.
Qed.

(** C7, as the code has it by design.  An assistant message whose
    trimmed text is valid JSON for an object with [columns] and [rows]
    that are both arrays, empty or not, is shown as a table.  A text that
    is not valid JSON, or whose JSON has no [columns] or no [rows]
    (absent, [null], [false], 0 or the empty string), is classified
    without an error: plain, or the dots when it is the reserved text.
    Nothing is said of [columns] or [rows] that are there and are not
    arrays. *)
Theorem table_for_arrays_plain_for_missing (t : jsstring) :
  (forall fields columns rows,
     JSON.parse (trim t) = Some (VObj fields) ->
     lookup (lit "columns") fields = VArr columns ->
     lookup (lit "rows") fields = VArr rows ->
     classify (VStr (lit "assistant")) (VStr t) = Table (VArr columns) (VArr rows))
  /\ (JSON.parse (trim t) = None
      \/ (exists parsed,
            JSON.parse (trim t) = Some parsed
            /\ (truthy (field parsed "columns") = false
                \/ truthy (field parsed "rows") = false)) ->
      classify (VStr (lit "assistant")) (VStr t)
        = if str_eqb t WebCrawler.thinking then Thinking else Plain).
Proof.
  split.
  - intros fields columns rows E Hc Hr.
    pose proof (JSONFacts.parse_object_startsWith t fields E) as Hs.
    destruct (reserved_text_starts t Hs) as [Hth Hne].
    unfold classify. rewrite Hth.
    unfold parsed_of. rewrite assistant_role, Hne. cbn [andb].
    unfold try_parse. rewrite Hs, E. cbn [orb get]. rewrite Hc, Hr.
    cbn [negb orb truthy get]. now rewrite Hc, Hr.
  - intros H. unfold classify. rewrite (parsed_of_missing t H).
    cbn [strict_eq_str truthy]. now destruct (str_eqb t WebCrawler.thinking).
Qed.

(** A one-column table, a truncated payload, a payload without rows. *)
Example tables_and_partial_payloads :
  classify (VStr (lit "assistant")) (VStr Samples.table_text)
    = Table (VArr [Samples.str "name"])
            (VArr [VObj [(lit "name", Samples.str "T-Hub")]])
  /\ classify (VStr (lit "assistant")) (VStr (lit "{not json")) = Plain
  /\ classify (VStr (lit "assistant"))
        (VStr (lit "{" ++ Samples.quoted "columns" ++ lit ":[1]}")) = Plain.
Proof. repeat split; vm_compute; reflexivity. Qed.

(** A payload whose [columns] and [rows] are there and are not both
    arrays passes the test of [ChatMessage] all the same, and [TableView]
    throws on it: [columns.map], or [rows.map], is not a function. *)
Theorem table_view_throws_on_non_arrays
    (t : jsstring) (fields : list (jsstring * value)) :
  JSON.parse (trim t) = Some (VObj fields) ->
  truthy (lookup (lit "columns") fields) = true ->
  truthy (lookup (lit "rows") fields) = true ->
  is_array (lookup (lit "columns") fields) && is_array (lookup (lit "rows") fields)
    = false ->
  classify (VStr (lit "assistant")) (VStr t)
    = Table (lookup (lit "columns") fields) (lookup (lit "rows") fields)
  /\ exists e,
       TableView (lookup (lit "columns") fields) (lookup (lit "rows") fields)
         = Throw e.
Proof.
  intros E Hc Hr Ha. split.
  - pose proof (JSONFacts.parse_object_startsWith t fields E) as Hs.
    destruct (reserved_text_starts t Hs) as [Hth Hne].
    unfold classify. rewrite Hth.
    unfold parsed_of. rewrite assistant_role, Hne. cbn [andb].
    unfold try_parse. rewrite Hs, E. cbn [orb get]. rewrite Hc, Hr.
    cbn [negb orb truthy get]. reflexivity.
  - unfold TableView.
    destruct (lookup (lit "columns") fields); try (eexists; reflexivity).
    destruct (lookup (lit "rows") fields); try (eexists; reflexivity).
    discriminate Ha.
Qed.

Lemma table_view_throws_on_non_arrays_witness :
  classify (VStr (lit "assistant")) (VStr Samples.numbers_text)
    = Table (lookup (lit "columns") Samples.numbers_payload)
            (lookup (lit "rows") Samples.numbers_payload)
  /\ exists e,
       TableView (lookup (lit "columns") Samples.numbers_payload)
                 (lookup (lit "rows") Samples.numbers_payload)
         = Throw e.
Proof.
  apply (table_view_throws_on_non_arrays Samples.numbers_text Samples.numbers_payload).
  - vm_compute. reflexivity.
  - reflexivity.
  - reflexivity.
  - reflexivity.
Defined.

End BubbleFacts.

(** ** root/frontend: [App], the crawl state of a turn *)
Module CrawlFacts.

Import JS Eff RootApp EffFacts RootAppFacts.
Local Open Scope eff_scope.

#[local] Arguments lit : simpl never.
#[local] Arguments JSON.stringify : simpl never.
#[local] Arguments prop : simpl never.

(** The end of [handleSend] writes neither the crawl state nor a
    request. *)
Lemma handleSend_answered_keeps (state : CrawlState) (o : outcome) (w : World) :
  crawlState (snd (handleSend_answered state o w)) = crawlState w
  /\ requests (snd (handleSend_answered state o w)) = requests w.
Proof.
  unfold handleSend_answered, bind, await.
  destruct o as [chatRes|e]; [|split; reflexivity].
  destruct (nullish chatRes) eqn:Hc.
  { destruct chatRes; try discriminate Hc; split; reflexivity. }
  unfold ret. rewrite (prop_field chatRes "mode" _ Hc).
  destruct (strict_eq_str (field chatRes "mode") (lit "CLARIFICATION_ONLY"));
    rewrite (prop_field chatRes "response" _ Hc); split; reflexivity.
Qed.

Lemma handleSend_answered_ok (state : CrawlState) (chatRes : value) (w : World) :
  nullish chatRes = false ->
  fst (handleSend_answered state (Resolves chatRes) w) = Ok tt.
Proof.
  intros Hc. unfold handleSend_answered, bind, await, ret.
  rewrite (prop_field chatRes "mode" _ Hc).
  destruct (strict_eq_str (field chatRes "mode") (lit "CLARIFICATION_ONLY"));
    rewrite (prop_field chatRes "response" _ Hc); reflexivity.
Qed.

(** [handleSend] over a crawl that answered. *)
Lemma handleSend_unfold
    (w : World) (query : jsstring) (crawlRes : value) (answered : outcome) :
  nullish crawlRes = false ->
  handleSend query (Resolves crawlRes) answered w =
    handleSend_answered (state_of crawlRes) answered
      (mkWorld (messages w ++ [mkMessage user (VStr query)]
                ++ [mkMessage system (VStr extracted_text)])
               (input w) done (Some (state_of crawlRes)) None
               (requests w ++ [crawl_request query;
                               chat_request query (state_of crawlRes)])).
Proof.
  intros Hn. unfold handleSend, bind. simpl.
  rewrite (handleSend_crawled_ok query crawlRes _ Hn). simpl.
  now rewrite <- !app_assoc.
Qed.

(** C8.  A crawl response without [allowed_metrics] installs a crawl
    state whose [allowed_metrics] is the empty array, and likewise for
    [blocked_metrics] and [dataset_preview] when they are absent; the turn
    goes on: the chat request is sent, over that state, and [handleSend]
    ends without an error when the chat answers. *)
Theorem absent_metrics_default_to_empty
    (w : World) (query : jsstring) (crawlRes : value) (answered : outcome) :
  nullish crawlRes = false ->
  field crawlRes "allowed_metrics" = VUndef ->
  let r := handleSend query (Resolves crawlRes) answered w in
  exists state,
    crawlState (snd r) = Some state
    /\ allowed_metrics state = VArr []
    /\ (field crawlRes "blocked_metrics" = VUndef -> blocked_metrics state = VArr [])
    /\ (field crawlRes "dataset_preview" = VUndef -> dataset_preview state = VArr [])
    /\ requests (snd r)
       = requests w ++ [crawl_request query; chat_request query state]
    /\ (forall chatRes,
          answered = Resolves chatRes -> nullish chatRes = false -> fst r = Ok tt).
Proof.
  intros Hn Ha r. subst r. rewrite (handleSend_unfold w query crawlRes answered Hn).
  exists (state_of crawlRes).
  destruct (handleSend_answered_keeps (state_of crawlRes) answered
              (mkWorld (messages w ++ [mkMessage user (VStr query)]
                        ++ [mkMessage system (VStr extracted_text)])
                       (input w) done (Some (state_of crawlRes)) None
                       (requests w ++ [crawl_request query;
                                       chat_request query (state_of crawlRes)])))
    as [Hs Hr].
  rewrite Hs, Hr. repeat split.
  - unfold state_of. cbn [allowed_metrics]. now rewrite Ha.
  - intros Hb. unfold state_of. cbn [blocked_metrics]. now rewrite Hb.
  - intros Hd. unfold state_of. cbn [dataset_preview]. now rewrite Hd.
  - intros chatRes -> Hc. now apply handleSend_answered_ok.
Qed.

(** A crawl response with the two required fields alone, then an
    answer. *)
Lemma absent_metrics_default_to_empty_witness :
  let r := handleSend (lit "revenue ranking") (Resolves Samples.crawl_bare)
                      (Resolves Samples.chat_answer) initial in
  exists state,
    crawlState (snd r) = Some state
    /\ allowed_metrics state = VArr []
    /\ (field Samples.crawl_bare "blocked_metrics" = VUndef ->
        blocked_metrics state = VArr [])
    /\ (field Samples.crawl_bare "dataset_preview" = VUndef ->
        dataset_preview state = VArr [])
    /\ requests (snd r)
       = requests initial ++ [crawl_request (lit "revenue ranking");
                              chat_request (lit "revenue ranking") state]
    /\ (forall chatRes,
          Resolves Samples.chat_answer = Resolves chatRes ->
          nullish chatRes = false -> fst r = Ok tt).
Proof.
  apply (absent_metrics_default_to_empty initial (lit "revenue ranking")
           Samples.crawl_bare (Resolves Samples.chat_answer)).
  - reflexivity.
  - reflexivity.
Defined.

(** C9.  After a crawl that answered, every field of the crawl state is
    the one derived from that response, [knowledge_index] and
    [low_trust_present] as they come, the three others defaulting to the
    empty array; nothing of the state of a previous crawl is kept,
    whatever the chat request comes back with. *)
Theorem crawl_replaces_every_field
    (w : World) (query : jsstring) (crawlRes : value) (answered : outcome) :
  nullish crawlRes = false ->
  crawlState (snd (handleSend query (Resolves crawlRes) answered w))
    = Some (mkCrawlState
              (field crawlRes "knowledge_index")
              (or_else (field crawlRes "allowed_metrics") (VArr []))
              (or_else (field crawlRes "blocked_metrics") (VArr []))
              (or_else (field crawlRes "dataset_preview") (VArr []))
              (field crawlRes "low_trust_present")).
Proof.
  intros Hn. rewrite (handleSend_unfold w query crawlRes answered Hn).
  now rewrite (proj1 (handleSend_answered_keeps _ _ _)).
Qed.

(** A full crawl, then a bare one: nothing of the first is left. *)
Lemma crawl_replaces_every_field_witness :
  crawlState (snd (handleSend (lit "by sector") (Resolves Samples.crawl_bare)
                     (Resolves Samples.chat_answer)
                     (snd (handleSend (lit "revenue ranking")
                             (Resolves Samples.crawl_full)
                             (Resolves Samples.chat_answer) initial))))
    = Some (mkCrawlState
              (field Samples.crawl_bare "knowledge_index")
              (or_else (field Samples.crawl_bare "allowed_metrics") (VArr []))
              (or_else (field Samples.crawl_bare "blocked_metrics") (VArr []))
              (or_else (field Samples.crawl_bare "dataset_preview") (VArr []))
              (field Samples.crawl_bare "low_trust_present")).
Proof.
  apply (crawl_replaces_every_field
           (snd (handleSend (lit "revenue ranking") (Resolves Samples.crawl_full)
                   (Resolves Samples.chat_answer) initial))
           (lit "by sector") Samples.crawl_bare (Resolves Samples.chat_answer)).
  reflexivity.
Defined.

(** The state the two crawls leave. *)
Example second_crawl_state :
  crawlState (snd (handleSend (lit "by sector") (Resolves Samples.crawl_bare)
                     (Resolves Samples.chat_answer)
                     (snd (handleSend (lit "revenue ranking")
                             (Resolves Samples.crawl_full)
                             (Resolves Samples.chat_answer) initial))))
    = Some (mkCrawlState (Samples.str "kx-2") (VArr []) (VArr []) (VArr [])
                         (VBool false)).
Proof. vm_compute. reflexivity. Qed.

(** A turn whose chat response is an answer: the user's message, the
    status message and the answer are appended, in that order, to the
    messages there were; no clarification is pending; the two requests
    were sent. *)
Theorem answer_appended
    (w : World) (query : jsstring) (crawlRes chatRes : value) :
  nullish crawlRes = false -> nullish chatRes = false ->
  strict_eq_str (field chatRes "mode") (lit "CLARIFICATION_ONLY") = false ->
  handleSend query (Resolves crawlRes) (Resolves chatRes) w =
    (Ok tt,
     mkWorld (messages w ++ [mkMessage user (VStr query);
                             mkMessage system (VStr extracted_text);
                             mkMessage assistant (field chatRes "response")])
             (input w) done (Some (state_of crawlRes)) None
             (requests w ++ [crawl_request query;
                             chat_request query (state_of crawlRes)])).
Proof.
  intros Hn Hc Hmode. rewrite (handleSend_unfold w query crawlRes _ Hn).
  unfold handleSend_answered, bind, await, ret.
  rewrite (prop_field chatRes "mode" _ Hc), Hmode.
  rewrite (prop_field chatRes "response" _ Hc).
  unfold setMessages, modify. cbn [messages input crawlStage crawlState
                                   clarification requests].
  now rewrite <- app_assoc.
Qed.

Lemma answer_appended_witness :
  handleSend (lit "revenue ranking") (Resolves Samples.crawl_full)
             (Resolves Samples.chat_answer) initial =
    (Ok tt,
     mkWorld (messages initial
              ++ [mkMessage user (VStr (lit "revenue ranking"));
                  mkMessage system (VStr extracted_text);
                  mkMessage assistant (field Samples.chat_answer "response")])
             (input initial) done (Some (state_of Samples.crawl_full)) None
             (requests initial
              ++ [crawl_request (lit "revenue ranking");
                  chat_request (lit "revenue ranking")
                               (state_of Samples.crawl_full)])).
Proof.
  apply (answer_appended initial (lit "revenue ranking") Samples.crawl_full
           Samples.chat_answer); reflexivity.
Defined.

(** A turn whose chat request fails after the crawl answered:
    [handleSend] ends as a rejected promise; the crawl state of this turn
    is installed and the status message is there, and nothing follows it:
    no answer and no error message. *)
Theorem chat_failure_appends_nothing
    (w : World) (query : jsstring) (crawlRes : value) (e : exn) :
  nullish crawlRes = false ->
  handleSend query (Resolves crawlRes) (Rejects e) w =
    (Throw e,
     mkWorld (messages w ++ [mkMessage user (VStr query);
                             mkMessage system (VStr extracted_text)])
             (input w) done (Some (state_of crawlRes)) None
             (requests w ++ [crawl_request query;
                             chat_request query (state_of crawlRes)])).
Proof.
  intros Hn. rewrite (handleSend_unfold w query crawlRes _ Hn).
  reflexivity.
Qed.

Lemma chat_failure_appends_nothing_witness :
  handleSend (lit "revenue ranking") (Resolves Samples.crawl_full)
             (Rejects Samples.failed_to_fetch) initial =
    (Throw Samples.failed_to_fetch,
     mkWorld (messages initial
              ++ [mkMessage user (VStr (lit "revenue ranking"));
                  mkMessage system (VStr extracted_text)])
             (input initial) done (Some (state_of Samples.crawl_full)) None
             (requests initial
              ++ [crawl_request (lit "revenue ranking");
                  chat_request (lit "revenue ranking")
                               (state_of Samples.crawl_full)])).
Proof.
  apply (chat_failure_appends_nothing initial (lit "revenue ranking")
           Samples.crawl_full Samples.failed_to_fetch).
  reflexivity.
Defined.

(** The status line once [handleSend] is over, whatever came back: it is
    never taken away again, no path going back to the idle stage; it
    stays at "Searching" when the crawl request failed, at "Extracting"
    when the crawl body was [null], and reads "Extraction complete"
    otherwise, also when the chat request failed. *)
Theorem status_after_turn
    (w : World) (query : jsstring) (crawled answered : outcome) :
  CrawlProgress (crawlStage (snd (handleSend query crawled answered w))) =
    match crawled with
    | Rejects _ => Some (lit "Searching the web" ++ [8230%N])
    | Resolves crawlRes =>
        if nullish crawlRes
        then Some (lit "Extracting data from sources" ++ [8230%N])
        else Some (lit "Extraction complete")
    end.
Proof.
  destruct crawled as [crawlRes|e]; [|reflexivity].
  destruct (nullish crawlRes) eqn:Hn.
  { destruct crawlRes; try discriminate Hn; reflexivity. }
  rewrite (handleSend_unfold w query crawlRes answered Hn).
  unfold handleSend_answered, bind, await.
  destruct answered as [chatRes|e]; [|reflexivity].
  destruct (nullish chatRes) eqn:Hc.
  { destruct chatRes; try discriminate Hc; reflexivity. }
  unfold ret. rewrite (prop_field chatRes "mode" _ Hc).
  destruct (strict_eq_str (field chatRes "mode") (lit "CLARIFICATION_ONLY"));
    rewrite (prop_field chatRes "response" _ Hc); reflexivity.
Qed.

(** The query typed and sent, the crawl and the chat answering. *)
Lemma click_send_clears_input_witness :
  input (snd (click_send (Resolves Samples.crawl_full) (Resolves Samples.chat_answer)
                         (Samples.typed "revenue ranking"))) = [].
Proof.
  apply (click_send_clears_input (Resolves Samples.crawl_full)
           (Resolves Samples.chat_answer) (Samples.typed "revenue ranking")).
  vm_compute. discriminate.
Defined.

End CrawlFacts.

(** ** The bodies of the requests: [JSON.stringify] read back *)
Module BodyFacts.

Import JS JSON Eff.
Local Open Scope N_scope.

Lemma hex_digit_char (d : N) : d < 16 -> hex_digit (hex_char d) = Some d.
Proof.
  intros H.
  assert (Hc : d = 0 \/ d = 1 \/ d = 2 \/ d = 3 \/ d = 4 \/ d = 5 \/ d = 6 \/ d = 7
               \/ d = 8 \/ d = 9 \/ d = 10 \/ d = 11 \/ d = 12 \/ d = 13 \/ d = 14
               \/ d = 15) by lia.
  repeat (destruct Hc as [->|Hc]; [reflexivity|]). now subst d.
Qed.

(** Four hexadecimal digits written by [escape_unit] are read back as the
    unit. *)
Lemma hex4_escape (c : N) :
  c < 65536 ->
  hex4 (hex_char (c / 4096)) (hex_char ((c / 256) mod 16))
       (hex_char ((c / 16) mod 16)) (hex_char (c mod 16)) = Some c.
Proof.
  intros H. unfold hex4.
  rewrite (hex_digit_char (c / 4096)) by (apply N.Div0.div_lt_upper_bound; lia).
  rewrite !hex_digit_char by (apply N.mod_lt; lia).
  f_equal.
  assert (E2 : c / 256 = c / 16 / 16) by (now rewrite N.Div0.div_div).
  assert (E3 : c / 4096 = c / 16 / 16 / 16) by (now rewrite !N.Div0.div_div).
  rewrite E2, E3.
  pose proof (N.div_mod c 16 ltac:(lia)) as H1.
  pose proof (N.div_mod (c / 16) 16 ltac:(lia)) as H2.
  pose proof (N.div_mod (c / 16 / 16) 16 ltac:(lia)) as H3.
  lia.
Qed.

Lemma parse_escape_unit (c : N) (tail acc : jsstring) :
  c < 65536 -> parse_chars (escape_unit c ++ tail) acc = parse_chars tail (c :: acc).
Proof.
  intros H. unfold escape_unit. cbn [app parse_chars].
  change (92 =? 34) with false. change (92 =? 92) with true.
  change (117 =? 117) with true. cbv beta iota.
  now rewrite (hex4_escape c H).
Qed.

Lemma parse_escape (e u : N) (tail acc : jsstring) :
  (e =? 117) = false -> unescape e = Some u ->
  parse_chars (92 :: e :: tail) acc = parse_chars tail (u :: acc).
Proof.
  intros He Hu. cbn [parse_chars].
  change (92 =? 34) with false. change (92 =? 92) with true. cbv beta iota.
  now rewrite He, Hu.
Qed.

Lemma parse_plain (c : N) (tail acc : jsstring) :
  (c =? 34) = false -> (c =? 92) = false -> (c <? 32) = false ->
  parse_chars (c :: tail) acc = parse_chars tail (c :: acc).
Proof. intros H1 H2 H3. cbn [parse_chars]. now rewrite H1, H2, H3. Qed.

Lemma surrogate_plain (c : N) :
  (is_high_surrogate c || is_low_surrogate c) = true ->
  c < 65536 /\ (c =? 34) = false /\ (c =? 92) = false /\ (c <? 32) = false.
Proof.
  unfold is_high_surrogate, is_low_surrogate. intros H.
  assert (Hc : 55296 <= c <= 57343).
  { apply orb_true_iff in H as [H|H]; apply andb_true_iff in H as [Ha Hb];
      apply N.leb_le in Ha, Hb; lia. }
  repeat split; try lia; [apply N.eqb_neq | apply N.eqb_neq | apply N.ltb_ge]; lia.
Qed.

(** The characters [JSON.stringify] writes for a string, read by
    [JSON.parse], give the string back, whatever it holds: quotes,
    backslashes, control characters, surrogates paired or alone. *)
Lemma parse_quote_chars (n : nat) :
  forall s, (length s <= n)%nat ->
  forall acc rest,
    parse_chars (quote_chars s ++ 34 :: rest) acc = POk (rev acc ++ s) rest.
Proof.
  induction n as [|n IH]; intros s Hlen acc rest.
  { destruct s; [|simpl in Hlen; lia]. cbn [quote_chars app parse_chars].
    change (34 =? 34) with true. cbv iota. now rewrite app_nil_r. }
  destruct s as [|c r].
  { cbn [quote_chars app parse_chars]. change (34 =? 34) with true. cbv iota.
    now rewrite app_nil_r. }
  assert (Hr : (length r <= n)%nat) by (simpl in Hlen; lia).
  assert (Hnext : forall acc', parse_chars (quote_chars r ++ 34 :: rest) (c :: acc')
                               = POk (rev acc' ++ c :: r) rest).
  { intros acc'. rewrite (IH r Hr). cbn [rev]. now rewrite <- app_assoc. }
  cbn [quote_chars].
  destruct (c =? 34) eqn:E34.
  { apply N.eqb_eq in E34. subst c. cbn [app].
    rewrite (parse_escape 34 34) by reflexivity. apply Hnext. }
  destruct (c =? 92) eqn:E92.
  { apply N.eqb_eq in E92. subst c. cbn [app].
    rewrite (parse_escape 92 92) by reflexivity. apply Hnext. }
  destruct (c =? 8) eqn:E8.
  { apply N.eqb_eq in E8. subst c. cbn [app].
    rewrite (parse_escape 98 8) by reflexivity. apply Hnext. }
  destruct (c =? 12) eqn:E12.
  { apply N.eqb_eq in E12. subst c. cbn [app].
    rewrite (parse_escape 102 12) by reflexivity. apply Hnext. }
  destruct (c =? 10) eqn:E10.
  { apply N.eqb_eq in E10. subst c. cbn [app].
    rewrite (parse_escape 110 10) by reflexivity. apply Hnext. }
  destruct (c =? 13) eqn:E13.
  { apply N.eqb_eq in E13. subst c. cbn [app].
    rewrite (parse_escape 114 13) by reflexivity. apply Hnext. }
  destruct (c =? 9) eqn:E9.
  { apply N.eqb_eq in E9. subst c. cbn [app].
    rewrite (parse_escape 116 9) by reflexivity. apply Hnext. }
  destruct (c <? 32) eqn:E32.
  { rewrite <- app_assoc, parse_escape_unit by (apply N.ltb_lt in E32; lia).
    apply Hnext. }
  destruct (is_high_surrogate c) eqn:Eh.
  { destruct (surrogate_plain c) as [Hc _]; [now rewrite Eh|].
    destruct r as [|d r'].
    - rewrite parse_escape_unit by exact Hc.
      cbn [parse_chars]. change (34 =? 34) with true. cbv iota.
      reflexivity.
    - destruct (is_low_surrogate d) eqn:El.
      + destruct (surrogate_plain d) as [_ [D1 [D2 D3]]];
          [now rewrite El, orb_true_r|].
        cbn [app]. rewrite (parse_plain c _ _ E34 E92 E32).
        rewrite (parse_plain d _ _ D1 D2 D3).
        rewrite (IH r') by (simpl in Hr; lia).
        cbn [rev]. now rewrite <- !app_assoc.
      + rewrite <- app_assoc, parse_escape_unit by exact Hc. apply Hnext. }
  destruct (is_low_surrogate c) eqn:El.
  { destruct (surrogate_plain c) as [Hc _]; [now rewrite El, orb_true_r|].
    rewrite <- app_assoc, parse_escape_unit by exact Hc. apply Hnext. }
  cbn [app]. rewrite (parse_plain c _ _ E34 E92 E32). apply Hnext.
Qed.

(** A quoted string followed by [rest] is read as the string, and [rest]
    is left. *)
Lemma parse_quote (s rest : jsstring) :
  parse_chars (quote_chars s ++ 34 :: rest) [] = POk s rest.
Proof. exact (parse_quote_chars (length s) s (le_n _) [] rest). Qed.

Lemma skip_ws_here (c : N) (r : jsstring) :
  is_json_ws c = false -> skip_ws (c :: r) = c :: r.
Proof. intros H. cbn [skip_ws]. now rewrite H. Qed.

(** The text [JSON.stringify] writes for an object of one string
    property is read by [JSON.parse] as that object, whatever the key and
    the string. *)
Lemma parse_one_member (k text : jsstring) :
  parse (stringify_body (VObj [(k, VStr text)])) = Some (VObj [(k, VStr text)]).
Proof.
  unfold stringify_body. cbn [stringify join]. unfold quote.
  change (lit "{") with [123]. change (lit ":") with [58]. change (lit "}") with [125].
  set (after_key := 58 :: 34 :: quote_chars text ++ [34; 125]).
  replace ([123] ++ (([34] ++ quote_chars k ++ [34]) ++ [58]
                     ++ [34] ++ quote_chars text ++ [34]) ++ [125])
    with (123 :: 34 :: quote_chars k ++ 34 :: after_key)
    by (subst after_key; repeat (rewrite <- app_assoc || cbn [app]); reflexivity).
  unfold parse.
  match goal with |- context [parse_value ?fuel _] =>
    destruct fuel as [|[|[|f]]] eqn:Ef; try (cbn [length] in Ef; lia) end.
  cbn [parse_value]. rewrite (skip_ws_here 123) by reflexivity.
  change (123 =? 123) with true. cbv iota.
  rewrite (skip_ws_here 34) by reflexivity.
  change (34 =? 125) with false. cbv iota.
  cbn [parse_members]. rewrite (skip_ws_here 34) by reflexivity.
  change (34 =? 34) with true. cbv iota.
  rewrite (parse_quote k after_key). subst after_key.
  rewrite (skip_ws_here 58) by reflexivity.
  change (58 =? 58) with true. cbv iota.
  cbn [parse_value]. rewrite (skip_ws_here 34) by reflexivity.
  change (34 =? 123) with false. change (34 =? 91) with false.
  change (34 =? 34) with true. cbv iota.
  change (quote_chars text ++ [34; 125]) with (quote_chars text ++ 34 :: [125]).
  rewrite (parse_quote text [125]).
  rewrite (skip_ws_here 125) by reflexivity.
  change (125 =? 44) with false. change (125 =? 125) with true. cbv iota.
  reflexivity.
Qed.

(** The body of the request of [send] is JSON text that [JSON.parse]
    reads as [{ message: text }], whatever the user typed. *)
Theorem message_body_read_back (text : jsstring) :
  parse (WebCrawler.message_body text) = Some (VObj [(lit "message", VStr text)]).
Proof. apply parse_one_member. Qed.

(** The same for the body of the crawl request of the root [App]:
    [{ query }]. *)
Theorem crawl_body_read_back (query : jsstring) :
  parse (body (RootApp.crawl_request query)) = Some (VObj [(lit "query", VStr query)]).
Proof. apply parse_one_member. Qed.

Example quoted_text_read_back :
  WebCrawler.message_body (lit "say " ++ [34; 104; 105; 34; 10; 55357])
    = lit "{" ++ Samples.quoted "message" ++ lit ":"
      ++ [34] ++ lit "say " ++ [92; 34; 104; 105; 92; 34; 92; 110]
      ++ [92; 117; 100; 56; 51; 100] ++ [34] ++ lit "}".
Proof. vm_compute. reflexivity. Qed.

End BodyFacts.
